(** * Workspace script runner, background handle and circular buffer

    A shallow embedding of three pieces of the repository:
    - [CircularBuffer]       (services/circularBuffer.ts),
    - [runWorkspaceScript]   (services/scriptRunner.ts),
    - [LocalBackgroundHandle] (runtime/LocalBackgroundHandle.ts),
    together with the properties the specification states about them.

    JavaScript strings are modelled by [string]; every character stands
    for one UTF-16 code unit below 256.  All string operations the code
    uses ([includes], [startsWith], [replace], [trim], concatenation) act
    on code units, so this fragment is closed under them.

    Asynchronous code is modelled sequentially: a computation takes the
    world it starts in and returns how it completed (a value, or a thrown
    value for a rejected promise), the world it leaves and the calls it
    made on its collaborators, in order.  The collaborators (the runtime,
    the bash tool, the child process) are parameters: whatever they
    return or throw, in whatever world, is covered. *)

From Stdlib Require Import ZArith String Ascii List Lia Bool Arith.
From stdpp Require Import base list strings pretty.
Import ListNotations.

Local Open Scope string_scope.
Local Open Scope list_scope.
Local Open Scope nat_scope.

(** ** CircularBuffer *)

(** Indices and sizes are natural numbers; the backing array is a list of
    cells, [None] for a hole.  The capacity is taken to be a positive
    integer, as every use of the class has it: the facts below assume
    [1 <= capacity] (with capacity 0 the remainder is [NaN] in JavaScript,
    which the model does not represent). *)

Module CircularBuffer.

(** [arr[i] = x] on a JavaScript array: writing at or past the end
    extends the array, the skipped slots staying holes. *)
Definition array_set {T : Type} (i : nat) (x : T) (arr : list (option T))
  : list (option T) :=
  if i <? length arr then <[i := Some x]> arr
  else arr ++ replicate (i - length arr) None ++ [Some x].

(** [arr[i]]: a hole or an index out of range reads [undefined],
    represented by [None]. *)
Definition array_get {T : Type} (arr : list (option T)) (i : nat) : option T :=
  match arr !! i with
  | Some cell => cell
  | None => None
  end.

Record t (T : Type) : Type := Build {
  buffer : list (option T);
  head : nat;      (* index of the oldest item *)
  tail : nat;      (* index where the next item is written *)
  size : nat;      (* current number of items *)
  capacity : nat
}.
Arguments Build {T}.
Arguments buffer {T}.
Arguments head {T}.
Arguments tail {T}.
Arguments size {T}.
Arguments capacity {T}.

Section Operations.
Context {T : Type}.

(** [new CircularBuffer<T>(capacity)]; [new Array(capacity)] is an
      array of [capacity] holes. *)
Definition new (cap : nat) : t T :=
    {| buffer := replicate cap None; head := 0; tail := 0; size := 0;
       capacity := cap |}.

Definition push (item : T) (b : t T) : t T :=
    let buffer' := array_set (tail b) item (buffer b) in
    let tail' := (tail b + 1) mod capacity b in
    if size b <? capacity b then
      {| buffer := buffer'; head := head b; tail := tail';
         size := size b + 1; capacity := capacity b |}
    else
      {| buffer := buffer'; head := (head b + 1) mod capacity b;
         tail := tail'; size := size b; capacity := capacity b |}.

(** The [for] loop of [toArray]: [n] iterations left, reading at [idx]. *)
Fixpoint toArray_loop (b : t T) (n idx : nat) : list (option T) :=
    match n with
    | 0 => []
    | S n' => array_get (buffer b) idx
                :: toArray_loop b n' ((idx + 1) mod capacity b)
    end.

Definition toArray (b : t T) : list (option T) :=
    if size b =? 0 then [] else toArray_loop b (size b) (head b).

Definition length (b : t T) : nat := size b.
Definition isEmpty (b : t T) : bool := size b =? 0.
Definition isFull (b : t T) : bool := size b =? capacity b.

Definition clear (b : t T) : t T :=
    {| buffer := buffer b; head := 0; tail := 0; size := 0;
       capacity := capacity b |}.

(** A sequence of pushes, first element of the list pushed first. *)
Definition pushAll (items : list T) (b : t T) : t T :=
    fold_left (fun acc item => push item acc) items b.
End Operations.

End CircularBuffer.

(** The abstract contents after one more push: the item is appended, and
    once [C] items are held the oldest one is dropped. *)
Definition retain {T : Type} (C : nat) (l : list T) (x : T) : list T :=
  if List.length l <? C then l ++ [x] else drop 1 l ++ [x].

(** Representation invariant: buffer [b] of capacity [C] holds exactly the
    items [l], oldest first, in the slots [head], [head+1], ... modulo [C]. *)
Definition represents {T : Type} (C : nat) (b : CircularBuffer.t T) (l : list T)
  : Prop :=
  CircularBuffer.capacity b = C /\
  List.length (CircularBuffer.buffer b) = C /\
  CircularBuffer.size b = List.length l /\
  List.length l <= C /\
  (1 <= C -> CircularBuffer.head b < C) /\
  (1 <= C -> CircularBuffer.tail b
             = (CircularBuffer.head b + CircularBuffer.size b) mod C) /\
  forall k, k < List.length l ->
    CircularBuffer.array_get (CircularBuffer.buffer b)
      ((CircularBuffer.head b + k) mod C) = l !! k.

(** ** JavaScript string primitives used by the script runner *)

Module Js.

(** [s.startsWith(prefix)] *)
Fixpoint startsWith (s prefix : string) {struct prefix} : bool :=
  match prefix with
  | EmptyString => true
  | String a prefix' =>
      match s with
      | EmptyString => false
      | String b s' => Ascii.eqb a b && startsWith s' prefix'
      end
  end.

(** [s.includes(sub)]: [sub] occurs at some position of [s]. *)
Fixpoint includes (s sub : string) : bool :=
  startsWith s sub ||
  match s with
  | EmptyString => false
  | String _ rest => includes rest sub
  end.

(** [s.replace(/c/g, r)] for a one-character pattern [c]: every
    occurrence of [c] is replaced by [r]. *)
Fixpoint replaceAllChar (c : ascii) (r : string) (s : string) : string :=
  match s with
  | EmptyString => EmptyString
  | String a rest =>
      (if Ascii.eqb a c then r else String a EmptyString)
        +:+ replaceAllChar c r rest
  end.

(** White space of [String.prototype.trim] among the code units below
    256: TAB, LF, VT, FF, CR, SPACE and NBSP. *)
Definition isWhiteSpace (a : ascii) : bool :=
  let n := nat_of_ascii a in
  ((9 <=? n) && (n <=? 13)) || (n =? 32) || (n =? 160).

Fixpoint trimStart (s : string) : string :=
  match s with
  | EmptyString => EmptyString
  | String a rest => if isWhiteSpace a then trimStart rest else s
  end.

Definition isEmptyString (s : string) : bool :=
  match s with EmptyString => true | String _ _ => false end.

Fixpoint trimEnd (s : string) : string :=
  match s with
  | EmptyString => EmptyString
  | String a rest =>
      let r := trimEnd rest in
      if isWhiteSpace a && isEmptyString r then EmptyString else String a r
  end.

(** [s.trim()] *)
Definition trim (s : string) : string := trimEnd (trimStart s).

(** [s.replace(/\/+$/, "")]: the trailing run of slashes is removed. *)
Fixpoint stripTrailingSlashes (s : string) : string :=
  match s with
  | EmptyString => EmptyString
  | String a rest =>
      let r := stripTrailingSlashes rest in
      if Ascii.eqb a "/"%char && isEmptyString r then EmptyString
      else String a r
  end.

(** [parts.join(sep)] *)
Fixpoint join (sep : string) (parts : list string) : string :=
  match parts with
  | [] => EmptyString
  | [x] => x
  | x :: rest => x +:+ sep +:+ join sep rest
  end.

(** Truthiness of a string: the empty string is falsy. *)
Definition truthy (s : string) : bool := negb (isEmptyString s).

End Js.

(** The characters the runner quotes with. *)
Definition squote : ascii := ascii_of_nat 39.
Definition dquote : ascii := ascii_of_nat 34.
Definition backslash : ascii := ascii_of_nat 92.

(** ** Completions, results and the effect monad *)

(** What a JavaScript [throw] carries: an [Error] object with its
    [message], or any other value, kept as its [String(...)] rendering. *)
Inductive Thrown : Type :=
| ErrorObject (message : string)
| OtherValue (asString : string).

(** [e instanceof Error ? e.message : String(e)] *)
Definition thrownText (e : Thrown) : string :=
  match e with
  | ErrorObject message => message
  | OtherValue asString => asString
  end.

(** How a call ends: with a value, or by throwing (for an async function:
    the promise is fulfilled, or rejected). *)
Inductive Completion (A : Type) : Type :=
| Normal (value : A)
| Throw (e : Thrown).
Arguments Normal {A}.
Arguments Throw {A}.

(** Modelled from the spec: the declaration of [Result<T, E>]
    (common/types/result) is not among the sources; the operation returns
    [Result<ScriptExecutionResult, Error>], built by [Ok] and [Err], read
    through [success], [data] and [error]. *)
Inductive Result (T E : Type) : Type :=
| Ok (data : T)
| Err (error : E).
Arguments Ok {T E}.
Arguments Err {T E}.

(** Computations over a world [W] (file system, processes, clock) that
    emit events of type [Ev]: a run returns its completion, the world it
    leaves and the events it emitted, oldest first. *)
Definition M (W Ev A : Type) : Type := W -> Completion A * W * list Ev.

Section Monad.
Context {W Ev : Type}.

Definition ret {A : Type} (a : A) : M W Ev A :=
  fun w => (Normal a, w, []).

Definition bind {A B : Type} (m : M W Ev A) (f : A -> M W Ev B) : M W Ev B :=
  fun w =>
    match m w with
    | (Normal a, w1, t1) =>
        match f a w1 with
        | (c, w2, t2) => (c, w2, t1 ++ t2)
        end
    | (Throw e, w1, t1) => (Throw e, w1, t1)
    end.

(** [try { m } catch (e) { handler e }] *)
Definition tryCatch {A : Type} (m : M W Ev A) (handler : Thrown -> M W Ev A)
  : M W Ev A :=
  fun w =>
    match m w with
    | (Normal a, w1, t1) => (Normal a, w1, t1)
    | (Throw e, w1, t1) =>
        match handler e w1 with
        | (c, w2, t2) => (c, w2, t1 ++ t2)
        end
    end.

(** An awaited call of an operation of the environment; [mk] builds the
    event recording the call and how it ended. *)
Definition call {A : Type} (op : W -> Completion A * W)
    (mk : Completion A -> Ev) : M W Ev A :=
  fun w => match op w with (c, w1) => (c, w1, [mk c]) end.

(** A call whose promise is discarded ([void op(...)]): the operation is
    started, and neither its value nor its failure reaches the caller (an
    async function never throws at the call, it rejects its promise). *)
Definition callDetached {A : Type} (op : W -> Completion A * W) (ev : Ev)
  : M W Ev unit :=
  fun w => match op w with (_, w1) => (Normal tt, w1, [ev]) end.

End Monad.

Notation "'await' x <- m ; k" := (bind m (fun x => k))
  (at level 10, x name, m at level 100, k at level 200,
   format "'[v' 'await'  x  <-  m ; '/' k ']'").
Notation "'perform' m ; k" := (bind m (fun _ => k))
  (at level 10, m at level 100, k at level 200,
   format "'[v' 'perform'  m ; '/' k ']'").

Definition completion {W Ev A : Type} (r : Completion A * W * list Ev)
  : Completion A := fst (fst r).
Definition finalWorld {W Ev A : Type} (r : Completion A * W * list Ev) : W :=
  snd (fst r).
Definition events {W Ev A : Type} (r : Completion A * W * list Ev) : list Ev :=
  snd r.

(** ** The script runner (services/scriptRunner.ts) *)

Module ScriptRunner.

Inductive OverflowPolicy : Type := truncate | tmpfile.

Definition OverflowPolicy_eqb (a b : OverflowPolicy) : bool :=
  match a, b with
  | truncate, truncate | tmpfile, tmpfile => true
  | _, _ => false
  end.

(** Modelled from the spec: the declaration of [FileStat] (runtime/Runtime)
    is not among the sources; [stat] yields [{isDirectory, ...}], of which
    the runner reads [isDirectory] only. *)
Record FileStat : Type := { isDirectory : bool }.

(** Modelled from the spec: what [execBuffered] (utils/runtime/helpers,
    not among the sources) resolves to, [{exitCode, stdout, stderr}]. *)
Record ExecResult : Type := {
  exec_stdout : string;
  exec_stderr : string;
  exec_exitCode : Z
}.

(** Modelled from the spec: the declaration of [BashToolResult]
    (common/types/tools) is not among the sources; the engine returns
    [{success, output|error, exitCode, wallDurationMs}].  The runner reads
    [success], [exitCode], [output] (which may be absent on failure) and,
    on failure, [error]; the duration is never read and is left out. *)
Inductive BashToolResult : Type :=
| BashSuccess (output : string) (exitCode : Z)
| BashFailure (output : option string) (error : string) (exitCode : Z).

Definition success (r : BashToolResult) : bool :=
  match r with BashSuccess _ _ => true | BashFailure _ _ _ => false end.

Definition toolExitCode (r : BashToolResult) : Z :=
  match r with
  | BashSuccess _ exitCode => exitCode
  | BashFailure _ _ exitCode => exitCode
  end.

Record ScriptExecutionResult : Type := {
  exitCode : Z;
  stdout : string;
  stderr : string;
  toolResult : BashToolResult
}.

(** An [AbortSignal] is only passed along; it is kept as an opaque token. *)
Definition AbortSignal : Type := nat.

Record RunScriptOptions : Type := {
  env : option (list (string * string));
  secrets : option (list (string * string));
  timeoutSecs : option Z;
  abortSignal : option AbortSignal;
  overflowPolicy : option OverflowPolicy;
  persistentTempDir : option string
}.

(** [options = {}] *)
Definition noOptions : RunScriptOptions :=
  {| env := None; secrets := None; timeoutSecs := None; abortSignal := None;
     overflowPolicy := None; persistentTempDir := None |}.

(** The configuration handed to [createBashTool] (the runtime itself is
    the environment of the model). *)
Record BashToolConfig : Type := {
  cfg_cwd : string;
  cfg_secrets : list (string * string);
  cfg_runtimeTempDir : string;
  cfg_overflow_policy : OverflowPolicy;
  cfg_env : list (string * string)
}.

Record BashToolInput : Type := {
  script : string;
  timeout_secs : Z
}.

Record ToolCallOptions : Type := {
  toolCallId : string;
  call_abortSignal : option AbortSignal
}.

(** The calls the runner makes on its collaborators, with their
    arguments and how each ended. *)
Inductive Event : Type :=
| EvResolvePath (path : string) (res : Completion string)
| EvStat (path : string) (res : Completion FileStat)
| EvNormalizePath (targetPath basePath : string) (res : Completion string)
| EvExecBuffered (command cwd : string) (timeout : Z)
    (res : Completion ExecResult)
| EvExecDetached (command cwd : string) (timeout : Z)
| EvBashExecute (config : BashToolConfig) (input : BashToolInput)
    (callOptions : ToolCallOptions) (res : Completion BashToolResult).

(** The collaborators of the runner over a world [W]: the [Runtime]
    ([resolvePath], [stat], [normalizePath]), [execBuffered] of
    utils/runtime/helpers applied to that runtime, the [execute] of the
    tool [createBashTool] builds, the clock, and the path functions of
    utils/scripts/discovery.  None of them is among the sources; they are
    parameters of the runner: every operation may return any value or
    throw, depending on the world, and may change the world. *)
Record Host (W : Type) : Type := {
  resolvePath : string -> W -> Completion string * W;
  stat : string -> W -> Completion FileStat * W;
  normalizePath : string -> string -> W -> Completion string * W;
  execBuffered : string -> string -> Z -> W -> Completion ExecResult * W;
  bashExecute : BashToolConfig -> BashToolInput -> ToolCallOptions ->
                W -> Completion BashToolResult * W;
  dateNow : W -> Z;
  getScriptPath : string -> string -> string;
  getScriptsDir : string -> string;
  getLegacyScriptPath : string -> string -> string;
  getLegacyScriptsDir : string -> string
}.
Arguments resolvePath {W}.
Arguments stat {W}.
Arguments normalizePath {W}.
Arguments execBuffered {W}.
Arguments bashExecute {W}.
Arguments dateNow {W}.
Arguments getScriptPath {W}.
Arguments getScriptsDir {W}.
Arguments getLegacyScriptPath {W}.
Arguments getLegacyScriptsDir {W}.

(** The two flags the [cleanupTempDir] closure captures. *)
Record CleanupFlags : Type := {
  skipCleanup : bool;
  cleanupScheduled : bool
}.

Section Runner.
Context {W : Type} (host : Host W).

Local Abbreviation Run := (M W Event).

Definition runtime_resolvePath (path : string) : Run string :=
  call (resolvePath host path) (EvResolvePath path).

Definition runtime_stat (path : string) : Run FileStat :=
  call (stat host path) (EvStat path).

Definition runtime_normalizePath (targetPath basePath : string) : Run string :=
  call (normalizePath host targetPath basePath)
       (EvNormalizePath targetPath basePath).

(** [await execBuffered(runtime, command, { cwd, timeout })] *)
Definition await_execBuffered (command cwd : string) (timeout : Z)
  : Run ExecResult :=
  call (execBuffered host command cwd timeout)
       (EvExecBuffered command cwd timeout).

(** [void execBuffered(runtime, command, { cwd, timeout })] *)
Definition void_execBuffered (command cwd : string) (timeout : Z) : Run unit :=
  callDetached (execBuffered host command cwd timeout)
               (EvExecDetached command cwd timeout).

(** [Date.now()] *)
Definition date_now : Run Z := fun w => (Normal (dateNow host w), w, []).

Definition normalizeForShell (value : string) : string :=
  Js.replaceAllChar backslash "/" value.

Definition escapeSingleQuotes (value : string) : string :=
  Js.replaceAllChar squote
    (String squote (String backslash (String squote (String squote EmptyString))))
    value.

(** [`'${escapeSingleQuotes(value)}'`] *)
Definition singleQuoted (value : string) : string :=
  String squote (escapeSingleQuotes value) +:+ String squote EmptyString.

Definition persistentBaseOf (options : RunScriptOptions) : option string :=
  match persistentTempDir options with
  | Some dir =>
      if Js.truthy dir && (0 <? String.length (Js.trim dir)) then
        Some (Js.stripTrailingSlashes (normalizeForShell (Js.trim dir)))
      else None
  | None => None
  end.

(** Truthiness of [persistentBase]: [undefined] and the empty string are
    falsy. *)
Definition persistentBaseSet (persistentBase : option string) : bool :=
  match persistentBase with
  | Some base => Js.truthy base
  | None => false
  end.

Definition tempDirCommandOf (persistentBase : option string) : string :=
  match persistentBase with
  | Some base =>
      if Js.truthy base then
        "mkdir -p " +:+ singleQuoted base +:+ " && mktemp -d "
          +:+ singleQuoted (base +:+ "/script-XXXXXX")
      else "mktemp -d 2>/dev/null || mktemp -d -t 'mux-script'"
  | None => "mktemp -d 2>/dev/null || mktemp -d -t 'mux-script'"
  end.

(** The closure [cleanupTempDir], its captured flags made explicit. *)
Definition cleanupTempDir (workspacePath runtimeTempDir : string)
    (flags : CleanupFlags) : Run CleanupFlags :=
  if skipCleanup flags || cleanupScheduled flags then ret flags
  else
    let flags := {| skipCleanup := skipCleanup flags;
                    cleanupScheduled := true |} in
    let safeTempDir :=
      Js.replaceAllChar dquote (String backslash (String dquote EmptyString))
        runtimeTempDir in
    perform void_execBuffered
      ("rm -rf " +:+ String dquote safeTempDir +:+ String dquote EmptyString)
      workspacePath 5;
    ret flags.

(** Step 4: the command line handed to the bash tool. *)
Definition buildCommand (resolvedScriptPath : string) (args : list string)
  : string :=
  let escapedArgs := Js.join " " (map singleQuoted args) in
  singleQuoted resolvedScriptPath
    +:+ (if Js.truthy escapedArgs then " " +:+ escapedArgs else EmptyString).

Definition invalidNameError (scriptName : string) : string :=
  "Invalid script name: " +:+ scriptName
    +:+ ". Script names must not contain path separators.".

Definition pathEscapeError (scriptName : string) : string :=
  "Invalid script name: " +:+ scriptName
    +:+ ". Script path escapes scripts directory.".

Definition isDirectoryError (scriptName : string) : string :=
  "Script is a directory: " +:+ scriptName.

Definition notFoundError (scriptName : string) : string :=
  "Script not found: .mux/scripts/" +:+ scriptName
    +:+ ". Create the script in your workspace and make it executable (chmod +x).".

Definition tempDirError (tempDirResult : ExecResult) : string :=
  "Failed to prepare script environment: "
    +:+ (if Js.truthy (exec_stderr tempDirResult)
         then exec_stderr tempDirResult else "mkdir failed").

Definition emptyTempDirError : string :=
  "Failed to prepare script environment: runtime temp directory was empty".

Definition executionFailedError (execError : Thrown) : string :=
  "Script execution failed: " +:+ thrownText execError.

(** Lines 151-180 of [runWorkspaceScript]: the script path and its scripts
    directory, resolved under the canonical location, else under the legacy
    one, else under the canonical one again.  [resolvedScriptPath] and
    [resolvedScriptsDir] are both assigned in whichever block completes,
    so each block yields the pair. *)
Definition resolveScriptPaths (workspacePath scriptName : string)
  : Run (string * string) :=
  let canonicalScriptPath := getScriptPath host workspacePath scriptName in
  let canonicalScriptsDir := getScriptsDir host workspacePath in
  let legacyScriptPath := getLegacyScriptPath host workspacePath scriptName in
  let legacyScriptsDir := getLegacyScriptsDir host workspacePath in
  tryCatch
    ((* Try canonical path first *)
     await candidatePath <- runtime_resolvePath canonicalScriptPath;
     perform runtime_stat candidatePath;
     await scriptsDir <- runtime_resolvePath canonicalScriptsDir;
     ret (candidatePath, scriptsDir))
    (fun _ =>
       tryCatch
         ((* Try legacy path fallback *)
          await candidateLegacyPath <- runtime_resolvePath legacyScriptPath;
          perform runtime_stat candidateLegacyPath;
          await scriptsDir <- runtime_resolvePath legacyScriptsDir;
          ret (candidateLegacyPath, scriptsDir))
         (fun _ =>
            (* Both missing. Default to canonical *)
            await scriptPath <- runtime_resolvePath canonicalScriptPath;
            await scriptsDir <- runtime_resolvePath canonicalScriptsDir;
            ret (scriptPath, scriptsDir))).

Definition runWorkspaceScript (workspacePath scriptName : string)
    (args : list string) (options : RunScriptOptions)
  : Run (Result ScriptExecutionResult string) :=
  let env := default [] (env options) in
  let secrets := default [] (secrets options) in
  let timeoutSecs := default 300%Z (timeoutSecs options) in
  let abortSignal := abortSignal options in
  let overflowPolicy := default truncate (overflowPolicy options) in
  (* 1. Validate script name safely *)
  if Js.includes scriptName "/" || Js.includes scriptName "\"
     || Js.includes scriptName ".."
  then ret (Err (invalidNameError scriptName))
  else
  (* Resolve real paths to handle symlinks and prevent escape *)
  await resolved <- resolveScriptPaths workspacePath scriptName;
  let resolvedScriptPath := fst resolved in
  let resolvedScriptsDir := snd resolved in
  (* Use runtime-aware normalization on the RESOLVED paths *)
  await normalizedScriptPath <-
    runtime_normalizePath resolvedScriptPath workspacePath;
  await normalizedScriptsDir <-
    runtime_normalizePath resolvedScriptsDir workspacePath;
  (* Determine separator from the normalized path itself *)
  let separator := if Js.includes normalizedScriptsDir "\" then "\" else "/" in
  (* Ensure strict path containment *)
  if negb (Js.startsWith normalizedScriptPath
             (normalizedScriptsDir +:+ separator))
  then ret (Err (pathEscapeError scriptName))
  else
  (* 2. Check existence; [Some] is a [return] from inside the [try] *)
  await early <-
    tryCatch
      (await st <- runtime_stat resolvedScriptPath;
       if isDirectory st then ret (Some (isDirectoryError scriptName))
       else ret None)
      (fun _ => ret (Some (notFoundError scriptName)));
  match early with
  | Some error => ret (Err error)
  | None =>
  (* 3. Prepare temporary environment for overflow handling *)
  let persistentBase := persistentBaseOf options in
  let tempDirCommand := tempDirCommandOf persistentBase in
  await tempDirResult <- await_execBuffered tempDirCommand workspacePath 5;
  if negb (exec_exitCode tempDirResult =? 0)%Z
  then ret (Err (tempDirError tempDirResult))
  else
  let runtimeTempDir := Js.trim (exec_stdout tempDirResult) in
  if negb (Js.truthy runtimeTempDir) then ret (Err emptyTempDirError)
  else
  let flags := {| skipCleanup := false; cleanupScheduled := false |} in
  (* 4. Build the command *)
  let command := buildCommand resolvedScriptPath args in
  (* 5. Execute using createBashTool *)
  let bashTool :=
    {| cfg_cwd := workspacePath; cfg_secrets := secrets;
       cfg_runtimeTempDir := runtimeTempDir;
       cfg_overflow_policy := overflowPolicy; cfg_env := env |} in
  tryCatch
    (await now <- date_now;
     let input := {| script := command; timeout_secs := timeoutSecs |} in
     let callOptions :=
       {| toolCallId := "script-" +:+ scriptName +:+ "-" +:+ pretty now;
          call_abortSignal := abortSignal |} in
     await toolResult <-
       call (bashExecute host bashTool input callOptions)
            (EvBashExecute bashTool input callOptions);
     (* 6. Handle cleanup for overflow cases *)
     let indicatesTmpfileOverflow :=
       persistentBaseSet persistentBase
       && OverflowPolicy_eqb overflowPolicy tmpfile
       && negb (success toolResult)
       && match toolResult with
          | BashFailure _ error _ => Js.includes error "[OUTPUT OVERFLOW -"
          | BashSuccess _ _ => false
          end in
     perform
       (if indicatesTmpfileOverflow
        then ret {| skipCleanup := true;
                    cleanupScheduled := cleanupScheduled flags |}
        else cleanupTempDir workspacePath runtimeTempDir flags);
     (* Extract stdout/stderr based on success/failure *)
     ret (Ok
       match toolResult with
       | BashSuccess output exitCode =>
           {| exitCode := exitCode; stdout := output; stderr := EmptyString;
              toolResult := toolResult |}
       | BashFailure output error exitCode =>
           {| exitCode := exitCode; stdout := default EmptyString output;
              stderr := error; toolResult := toolResult |}
       end))
    (fun execError =>
       (* the body can only throw from [execute], the flags still unset *)
       perform cleanupTempDir workspacePath runtimeTempDir flags;
       ret (Err (executionFailedError execError)))
  end.

End Runner.

(** *** What a trace of the runner shows *)

(** Temp-dir allocation, cleanup and script execution. *)
Definition isExecution (e : Event) : bool :=
  match e with
  | EvExecBuffered _ _ _ _ | EvExecDetached _ _ _ | EvBashExecute _ _ _ _ => true
  | _ => false
  end.

(** Path resolution and [stat]: the only calls of the resolution block. *)
Definition isLookup (e : Event) : bool :=
  match e with
  | EvResolvePath _ _ | EvStat _ _ => true
  | _ => false
  end.

(** The results of the [normalizePath] calls that returned, in order. *)
Definition normalizedPaths (trace : list Event) : list string :=
  omap (fun e => match e with
                 | EvNormalizePath _ _ (Normal r) => Some r
                 | _ => None
                 end) trace.

(** The [rm -rf] commands issued for cleanup, in order. *)
Definition cleanups (trace : list Event) : list string :=
  omap (fun e => match e with
                 | EvExecDetached command _ _ => Some command
                 | _ => None
                 end) trace.

(** The calls of the bash tool: the command line and how the call ended. *)
Definition engineCalls (trace : list Event)
  : list (string * Completion BashToolResult) :=
  omap (fun e => match e with
                 | EvBashExecute _ input _ res => Some (script input, res)
                 | _ => None
                 end) trace.

(** The separator the containment check appends to the scripts directory. *)
Definition separatorOf (normalizedScriptsDir : string) : string :=
  if Js.includes normalizedScriptsDir "\" then "\" else "/".

(** *** What the specification says of a call of the bash tool *)

(** The cleanup command for the temp directory [runtimeTempDir]. *)
Definition rmCommand (runtimeTempDir : string) : string :=
  "rm -rf " +:+ String dquote
    (Js.replaceAllChar dquote (String backslash (String dquote EmptyString))
       runtimeTempDir)
    +:+ String dquote EmptyString.

(** Cleanup is skipped: the persistent base is set, the policy is
    [tmpfile], and the tool failed with the overflow marker in its error. *)
Definition skipsCleanup (options : RunScriptOptions)
    (res : Completion BashToolResult) : bool :=
  match res with
  | Normal (BashFailure _ error _) =>
      persistentBaseSet (persistentBaseOf options)
      && OverflowPolicy_eqb (default truncate (overflowPolicy options)) tmpfile
      && Js.includes error "[OUTPUT OVERFLOW -"
  | _ => false
  end.

(** The result assembled from what the bash tool returned. *)
Definition assembled (toolResult : BashToolResult) : ScriptExecutionResult :=
  match toolResult with
  | BashSuccess output exitCode =>
      {| exitCode := exitCode; stdout := output; stderr := EmptyString;
         toolResult := toolResult |}
  | BashFailure output error exitCode =>
      {| exitCode := exitCode; stdout := default EmptyString output;
         stderr := error; toolResult := toolResult |}
  end.

(** The event [last] is a call that threw [e], of one of the three
    operations the runner calls outside of any [try]. *)
Definition thrownBy (last : Event) (e : Thrown) : Prop :=
  match last with
  | EvResolvePath _ (Throw e') | EvNormalizePath _ _ (Throw e')
  | EvExecBuffered _ _ _ (Throw e') => e' = e
  | _ => False
  end.

(** The errors the runner returns before it reaches the bash tool. *)
Definition isPreExecutionError (scriptName error : string) : Prop :=
  error = invalidNameError scriptName \/
  error = pathEscapeError scriptName \/
  error = isDirectoryError scriptName \/
  error = notFoundError scriptName \/
  (exists tempDirResult, error = tempDirError tempDirResult) \/
  error = emptyTempDirError.

(** *** Reading a command line back *)

(** How a POSIX shell splits a command line made only of single-quoted
    text, backslash-escaped characters and blanks: inside single quotes
    every character is literal up to the closing quote; outside, a
    backslash makes the next character literal and a blank ends the word.
    Any other unquoted character is outside this fragment ([None]). *)
Inductive QuoteMode : Type := Unquoted | SingleQuoted.

Fixpoint shellWordsFrom (mode : QuoteMode) (word : option string)
    (input : string) : option (list string) :=
  match input with
  | EmptyString =>
      match mode with
      | Unquoted => Some (match word with Some w => [w] | None => [] end)
      | SingleQuoted => None
      end
  | String c rest =>
      match mode with
      | SingleQuoted =>
          if Ascii.eqb c squote then shellWordsFrom Unquoted word rest
          else shellWordsFrom SingleQuoted
                 (Some (default EmptyString word +:+ String c EmptyString)) rest
      | Unquoted =>
          if Ascii.eqb c " " then
            match word with
            | Some w => option_map (cons w) (shellWordsFrom Unquoted None rest)
            | None => shellWordsFrom Unquoted None rest
            end
          else if Ascii.eqb c squote then
            shellWordsFrom SingleQuoted (Some (default EmptyString word)) rest
          else if Ascii.eqb c backslash then
            match rest with
            | String c' rest' =>
                shellWordsFrom Unquoted
                  (Some (default EmptyString word +:+ String c' EmptyString)) rest'
            | EmptyString => None
            end
          else None
      end
  end.

Definition shellWords (command : string) : option (list string) :=
  shellWordsFrom Unquoted None command.

End ScriptRunner.

(** ** The background handle (runtime/LocalBackgroundHandle.ts) *)

Module LocalBackgroundHandle.

(** A callback is code of the caller, known here by an identifier.  A call
    of it may return or throw, and a throw leaves the method that made the
    call at once.  How a call ends is not for the handle to decide: every
    method that calls a callback is given the outcome of the calls it
    makes, and what is proved for every outcome holds whatever the
    callbacks do.  Callbacks are taken not to call back into the handle
    while they run. *)
Definition Callback : Type := nat.

(** A call of a callback: the callback, its argument and how the call
    ended. *)
Inductive Delivery : Type :=
| StdoutLine (callback : Callback) (line : string) (res : Completion unit)
| StderrLine (callback : Callback) (line : string) (res : Completion unit)
| ExitCode (callback : Callback) (exitCode : Z) (res : Completion unit).

Record t : Type := Build {
  stdoutCallback : option Callback;
  stderrCallback : option Callback;
  exitCallback : option Callback;
  terminated : bool;
  (* Buffers for events that arrive before callbacks are registered *)
  pendingStdout : list string;
  pendingStderr : list string;
  pendingExitCode : option Z
}.

(** [new LocalBackgroundHandle(disposable)] *)
Definition new : t :=
  {| stdoutCallback := None; stderrCallback := None; exitCallback := None;
     terminated := false;
     pendingStdout := []; pendingStderr := []; pendingExitCode := None |}.

(** A method runs on the handle it is called on: [this] is the world of
    the computation, so what a method wrote before an exception left it
    stays written.  The events of a method are the calls of callbacks it
    made. *)
Local Abbreviation Method := (M t Delivery).

(** [this.field] *)
Definition read {A : Type} (field : t -> A) : Method A :=
  fun this => (Normal (field this), this, []).

(** [this.stdoutCallback = callback] and the like. *)
Definition set_stdoutCallback (callback : option Callback) : Method unit :=
  fun this =>
    (Normal tt,
     {| stdoutCallback := callback; stderrCallback := stderrCallback this;
        exitCallback := exitCallback this; terminated := terminated this;
        pendingStdout := pendingStdout this;
        pendingStderr := pendingStderr this;
        pendingExitCode := pendingExitCode this |}, []).

Definition set_stderrCallback (callback : option Callback) : Method unit :=
  fun this =>
    (Normal tt,
     {| stdoutCallback := stdoutCallback this; stderrCallback := callback;
        exitCallback := exitCallback this; terminated := terminated this;
        pendingStdout := pendingStdout this;
        pendingStderr := pendingStderr this;
        pendingExitCode := pendingExitCode this |}, []).

Definition set_exitCallback (callback : option Callback) : Method unit :=
  fun this =>
    (Normal tt,
     {| stdoutCallback := stdoutCallback this;
        stderrCallback := stderrCallback this;
        exitCallback := callback; terminated := terminated this;
        pendingStdout := pendingStdout this;
        pendingStderr := pendingStderr this;
        pendingExitCode := pendingExitCode this |}, []).

Definition set_pendingStdout (lines : list string) : Method unit :=
  fun this =>
    (Normal tt,
     {| stdoutCallback := stdoutCallback this;
        stderrCallback := stderrCallback this;
        exitCallback := exitCallback this; terminated := terminated this;
        pendingStdout := lines; pendingStderr := pendingStderr this;
        pendingExitCode := pendingExitCode this |}, []).

Definition set_pendingStderr (lines : list string) : Method unit :=
  fun this =>
    (Normal tt,
     {| stdoutCallback := stdoutCallback this;
        stderrCallback := stderrCallback this;
        exitCallback := exitCallback this; terminated := terminated this;
        pendingStdout := pendingStdout this; pendingStderr := lines;
        pendingExitCode := pendingExitCode this |}, []).

Definition set_pendingExitCode (exitCode : option Z) : Method unit :=
  fun this =>
    (Normal tt,
     {| stdoutCallback := stdoutCallback this;
        stderrCallback := stderrCallback this;
        exitCallback := exitCallback this; terminated := terminated this;
        pendingStdout := pendingStdout this;
        pendingStderr := pendingStderr this;
        pendingExitCode := exitCode |}, []).

(** [callback(argument)]: the call is recorded as [delivery] with how it
    ends; when it throws, so does the method. *)
Definition invoke (delivery : Completion unit -> Delivery)
    (outcome : Completion unit) : Method unit :=
  fun this => (outcome, this, [delivery outcome]).

(** [for (const item of items) { body }], each round given its number,
    counted from [i]. *)
Fixpoint forEach {A : Type} (items : list A)
    (body : nat -> A -> Method unit) (i : nat) : Method unit :=
  match items with
  | [] => ret tt
  | item :: rest => perform body i item; forEach rest body (S i)
  end.

(** [outcome i] is how the call of [callback] on the [i]-th pending line
    ends. *)
Definition onStdout (callback : Callback) (outcome : nat -> Completion unit)
  : Method unit :=
  perform set_stdoutCallback (Some callback);
  (* Flush buffered events *)
  await pending <- read pendingStdout;
  perform forEach pending
    (fun i line => invoke (StdoutLine callback line) (outcome i)) 0;
  set_pendingStdout [].

Definition onStderr (callback : Callback) (outcome : nat -> Completion unit)
  : Method unit :=
  perform set_stderrCallback (Some callback);
  (* Flush buffered events *)
  await pending <- read pendingStderr;
  perform forEach pending
    (fun i line => invoke (StderrLine callback line) (outcome i)) 0;
  set_pendingStderr [].

Definition onExit (callback : Callback) (outcome : Completion unit)
  : Method unit :=
  perform set_exitCallback (Some callback);
  (* Flush buffered event *)
  await pending <- read pendingExitCode;
  match pending with
  | Some exitCode =>
      perform invoke (ExitCode callback exitCode) outcome;
      set_pendingExitCode None
  | None => ret tt
  end.

(** Internal: called when stdout line arrives *)
Definition _emitStdout (line : string) (outcome : Completion unit)
  : Method unit :=
  await registered <- read stdoutCallback;
  match registered with
  | Some callback => invoke (StdoutLine callback line) outcome
  | None =>
      await pending <- read pendingStdout;
      set_pendingStdout (pending ++ [line])
  end.

(** Internal: called when stderr line arrives *)
Definition _emitStderr (line : string) (outcome : Completion unit)
  : Method unit :=
  await registered <- read stderrCallback;
  match registered with
  | Some callback => invoke (StderrLine callback line) outcome
  | None =>
      await pending <- read pendingStderr;
      set_pendingStderr (pending ++ [line])
  end.

(** Internal: called when process exits *)
Definition _emitExit (exitCode : Z) (outcome : Completion unit)
  : Method unit :=
  await registered <- read exitCallback;
  match registered with
  | Some callback => invoke (ExitCode callback exitCode) outcome
  | None => set_pendingExitCode (Some exitCode)
  end.

(** *** Sequences of calls on one handle *)

(** A call of a method by the owner of the handle or by the process
    reader, with the outcome of the callback calls it makes. *)
Inductive Call : Type :=
| OnStdout (callback : Callback) (outcome : nat -> Completion unit)
| OnStderr (callback : Callback) (outcome : nat -> Completion unit)
| OnExit (callback : Callback) (outcome : Completion unit)
| EmitStdout (line : string) (outcome : Completion unit)
| EmitStderr (line : string) (outcome : Completion unit)
| EmitExit (exitCode : Z) (outcome : Completion unit).

(** Every call of a callback returns. *)
Definition returns : nat -> Completion unit := fun _ => Normal tt.
Definition returned : Completion unit := Normal tt.

Definition method (c : Call) : Method unit :=
  match c with
  | OnStdout callback outcome => onStdout callback outcome
  | OnStderr callback outcome => onStderr callback outcome
  | OnExit callback outcome => onExit callback outcome
  | EmitStdout line outcome => _emitStdout line outcome
  | EmitStderr line outcome => _emitStderr line outcome
  | EmitExit exitCode outcome => _emitExit exitCode outcome
  end.

(** One call: the handle it leaves, whether it returned or threw, and the
    calls of callbacks it made. *)
Definition step (c : Call) (h : t) : t * list Delivery :=
  (finalWorld (method c h), events (method c h)).

(** The calls made one after the other; all deliveries, in order. *)
Fixpoint runCalls (cs : list Call) (h : t) : t * list Delivery :=
  match cs with
  | [] => (h, [])
  | c :: rest =>
      let (h1, d1) := step c h in
      let (h2, d2) := runCalls rest h1 in
      (h2, d1 ++ d2)
  end.

Definition deliveries (cs : list Call) : list Delivery :=
  snd (runCalls cs new).


Definition stdoutDelivered (ds : list Delivery) : list (Callback * string) :=
  omap (fun d => match d with StdoutLine cb line _ => Some (cb, line) | _ => None end) ds.
Definition stderrDelivered (ds : list Delivery) : list (Callback * string) :=
  omap (fun d => match d with StderrLine cb line _ => Some (cb, line) | _ => None end) ds.
Definition exitDelivered (ds : list Delivery) : list (Callback * Z) :=
  omap (fun d => match d with ExitCode cb code _ => Some (cb, code) | _ => None end) ds.






(** *** terminate *)

Inductive Signal : Type := SIGTERM | SIGKILL.

(** What [terminate] does to the outside, in order. *)
Inductive ProcessEvent : Type :=
| EvLogDebug (message : string)
| EvKill (pid : Z) (signal : Signal) (res : Completion unit)
| EvSetTimeout (ms : Z)
| EvIsRunning (running : bool).

(** The child process behind the handle, over a world [W]: its fields
    [pid], [exitCode] and [signalCode], [process.kill], which may throw,
    and how the world moves on while the caller waits. *)
Record Process (W : Type) : Type := {
  pid : W -> option Z;
  childExitCode : W -> option Z;
  childSignalCode : W -> option string;
  kill : Z -> Signal -> W -> Completion unit * W;
  elapse : Z -> W -> W
}.
Arguments pid {W}.
Arguments childExitCode {W}.
Arguments childSignalCode {W}.
Arguments kill {W}.
Arguments elapse {W}.

Definition signalName (s : Signal) : string :=
  match s with SIGTERM => "SIGTERM" | SIGKILL => "SIGKILL" end.

Section Terminate.
Context {W : Type} (child : Process W).

Local Abbreviation Run := (M W ProcessEvent).

(** [log.debug(message)] *)
Definition log_debug (message : string) : Run unit :=
  fun w => (Normal tt, w, [EvLogDebug message]).

(** [process.kill(pid, signal)] *)
Definition process_kill (target : Z) (signal : Signal) : Run unit :=
  call (kill child target signal) (EvKill target signal).

(** [setTimeout(resolve, ms)]: the timer is started. *)
Definition setTimeout (ms : Z) : Run unit :=
  fun w => (Normal tt, w, [EvSetTimeout ms]).

(** The timer of [ms] milliseconds runs out. *)
Definition timerFires (ms : Z) : Run unit :=
  fun w => (Normal tt, elapse child ms w, []).

Definition isRunning : Run bool :=
  fun w =>
    (* Process is dead if either exitCode or signalCode is set *)
    let running :=
      match childExitCode child w, childSignalCode child w with
      | None, None => true
      | _, _ => false
      end in
    (Normal running, w, [EvIsRunning running]).

Definition setTerminated (h : t) : t :=
  {| stdoutCallback := stdoutCallback h; stderrCallback := stderrCallback h;
     exitCallback := exitCallback h; terminated := true;
     pendingStdout := pendingStdout h; pendingStderr := pendingStderr h;
     pendingExitCode := pendingExitCode h |}.

(** [catch (error)] of [terminate] *)
Definition terminate_catch (error : Thrown) : Run unit :=
  (* Process may already be dead - that's fine *)
  log_debug ("LocalBackgroundHandle: Error during terminate: "
               +:+ thrownText error).

(** [terminate] is an async function with two [await]s inside its [try]:
    it runs in three parts, and between two parts other calls on the
    handle may run.  Each part works on the handle as it is when the part
    runs.

    First part, from the call to the [await] of the timer: [Some pgid]
    when the call now waits for the timer, [None] when it has returned. *)
Definition terminate_begin (h : t) : Run (t * option Z) :=
  if terminated h then ret (h, None)
  else
    await childPid <- (fun w => (Normal (pid child w), w, []));
    match childPid with
    | None => ret (setTerminated h, None)
    | Some childPid =>
        (* Use negative PID to kill the entire process group *)
        let pgid := (- childPid)%Z in
        tryCatch
          ((* Send SIGTERM to the process group for graceful shutdown *)
           perform log_debug
             ("LocalBackgroundHandle: Sending SIGTERM to process group (PGID: "
                +:+ pretty pgid +:+ ")");
           perform process_kill pgid SIGTERM;
           (* Wait 2 seconds for graceful shutdown *)
           perform setTimeout 2000;
           ret (h, Some pgid))
          (fun error =>
             perform terminate_catch error;
             ret (setTerminated h, None))
    end.

(** Second part, when the timer has run out: [this.isRunning()] is
    evaluated, and the call waits for its promise: this is [isRunning].

    Third part, with the answer of [isRunning], to the end. *)
Definition terminate_finish (pgid : Z) (running : bool) (h : t) : Run t :=
  perform
    tryCatch
      ((* Check if process is still running *)
       if running then
         perform log_debug
           "LocalBackgroundHandle: Process still running, sending SIGKILL";
         process_kill pgid SIGKILL
       else ret tt)
      terminate_catch;
  ret (setTerminated h).

(** A call of [terminate] that no other call on the handle overlaps with:
    the three parts one after the other, on the handle the call started
    with. *)
Definition terminate (h : t) : Run t :=
  await begun <- terminate_begin h;
  match snd begun with
  | None => ret (fst begun)
  | Some pgid =>
      perform timerFires 2000;
      await running <- isRunning;
      terminate_finish pgid running (fst begun)
  end.

End Terminate.

(** The signals, waits and liveness checks of a trace, without the log
    lines. *)
Definition actions (trace : list ProcessEvent) : list ProcessEvent :=
  omap (fun e => match e with EvLogDebug _ => None | _ => Some e end) trace.

End LocalBackgroundHandle.

(** ** A small concrete host, for running the runner on examples *)

Module Fixture.
Import ScriptRunner.

Fixpoint assoc {A : Type} (key : string) (l : list (string * A)) : option A :=
  match l with
  | [] => None
  | (k, v) :: rest => if String.eqb k key then Some v else assoc key rest
  end.

(** A workspace seen through a runtime: [links] says what [resolvePath]
    maps a path to (all other paths resolve to themselves), [files] lists
    the paths that exist, with whether each is a directory,
    [resolveThrows] makes every [resolvePath] fail, and [engine] is how the
    bash tool ends. *)
Record t : Type := {
  links : list (string * string);
  files : list (string * bool);
  resolveThrows : bool;
  tempDir : string;
  engine : Completion BashToolResult
}.

Definition host (fx : t) : Host unit :=
  {| resolvePath := fun path w =>
       if resolveThrows fx then (Throw (ErrorObject "connection lost"), w)
       else (Normal (default path (assoc path (links fx))), w);
     stat := fun path w =>
       match assoc path (files fx) with
       | Some isDir => (Normal {| isDirectory := isDir |}, w)
       | None => (Throw (ErrorObject ("ENOENT: " +:+ path)), w)
       end;
     normalizePath := fun targetPath _ w => (Normal targetPath, w);
     execBuffered := fun command _ _ w =>
       (Normal {| exec_stdout := tempDir fx +:+ String (ascii_of_nat 10) EmptyString;
                  exec_stderr := EmptyString; exec_exitCode := 0 |}, w);
     bashExecute := fun _ _ _ w => (engine fx, w);
     dateNow := fun _ => 1700000000000%Z;
     getScriptPath := fun workspacePath scriptName =>
       workspacePath +:+ "/.mux/scripts/" +:+ scriptName;
     getScriptsDir := fun workspacePath => workspacePath +:+ "/.mux/scripts";
     getLegacyScriptPath := fun workspacePath scriptName =>
       workspacePath +:+ "/.cmux/scripts/" +:+ scriptName;
     getLegacyScriptsDir := fun workspacePath =>
       workspacePath +:+ "/.cmux/scripts" |}.

(** A workspace [/ws] holding the executable script [build]. *)
Definition plain (engine : Completion BashToolResult) : t :=
  {| links := []; files := [("/ws/.mux/scripts/build", false)];
     resolveThrows := false; tempDir := "/tmp/tmp.Xa3"; engine := engine |}.

(** The same workspace where [build] is a symlink to [/etc/passwd]. *)
Definition escaping : t :=
  {| links := [("/ws/.mux/scripts/build", "/etc/passwd")];
     files := [("/etc/passwd", false)];
     resolveThrows := false; tempDir := "/tmp/tmp.Xa3";
     engine := Normal (BashSuccess "done" 0) |}.

(** The workspace [/ws] run with a persistent temp root: [mktemp] prints a
    fresh subdirectory of it. *)
Definition persistent (engine : Completion BashToolResult) : t :=
  {| links := []; files := [("/ws/.mux/scripts/build", false)];
     resolveThrows := false; tempDir := "/home/u/.mux-tmp/tok/script-Xa3";
     engine := engine |}.

Definition tmpfileOptions : RunScriptOptions :=
  {| env := None; secrets := None; timeoutSecs := None; abortSignal := None;
     overflowPolicy := Some tmpfile;
     persistentTempDir := Some "/home/u/.mux-tmp/tok/" |}.

(** What the bash tool is called with in these runs. *)
Definition toolConfig (runtimeTempDir : string) (policy : OverflowPolicy)
  : BashToolConfig :=
  {| cfg_cwd := "/ws"; cfg_secrets := []; cfg_runtimeTempDir := runtimeTempDir;
     cfg_overflow_policy := policy; cfg_env := [] |}.

Definition toolInput (command : string) : BashToolInput :=
  {| script := command; timeout_secs := 300 |}.

Definition toolCall : ToolCallOptions :=
  {| toolCallId := "script-build-1700000000000"; call_abortSignal := None |}.

(** A child process for running [terminate].  The world says whether the
    process has been signalled to death.  A process that is [gone] has
    exited before: signalling it fails.  A [stubborn] one survives
    SIGTERM. *)
Record child : Type := {
  gone : bool;
  stubborn : bool
}.

Definition process (c : child) : LocalBackgroundHandle.Process bool :=
  {| LocalBackgroundHandle.pid := fun _ => Some 4242%Z;
     LocalBackgroundHandle.childExitCode := fun _ =>
       if gone c then Some 0%Z else None;
     LocalBackgroundHandle.childSignalCode := fun killed : bool =>
       if killed then Some "SIGTERM" else None;
     LocalBackgroundHandle.kill := fun _ signal (killed : bool) =>
       if gone c then (Throw (ErrorObject "kill ESRCH"), killed)
       else match signal with
            | LocalBackgroundHandle.SIGTERM =>
                (Normal tt, if stubborn c then killed else true)
            | LocalBackgroundHandle.SIGKILL => (Normal tt, true)
            end;
     LocalBackgroundHandle.elapse := fun _ (killed : bool) => killed |}.


End Fixture.

(** [sub] occurs in [s]: what [s.includes(sub)] decides. *)
Definition occursIn (sub s : string) : Prop :=
  exists l r, s = l +:+ sub +:+ r.

(** ** Further observations of handles and runs *)

Module HandleChannels.
Import LocalBackgroundHandle.

(** The calls that concern one channel: its registrations and its events. *)
Definition isStdoutCall (c : Call) : bool :=
  match c with OnStdout _ _ | EmitStdout _ _ => true | _ => false end.
Definition isStderrCall (c : Call) : bool :=
  match c with OnStderr _ _ | EmitStderr _ _ => true | _ => false end.
Definition isExitCall (c : Call) : bool :=
  match c with OnExit _ _ | EmitExit _ _ => true | _ => false end.


(** What a flush does, as a function of the pending items: the callback
    is called on one item after the other, up to the first call that
    throws. *)
Fixpoint flushCalls {A : Type} (delivery : A -> Completion unit -> Delivery)
    (outcome : nat -> Completion unit) (i : nat) (items : list A)
  : Completion unit * list Delivery :=
  match items with
  | [] => (Normal tt, [])
  | item :: rest =>
      match outcome i with
      | Normal _ =>
          let (c, ds) := flushCalls delivery outcome (S i) rest in
          (c, delivery item (outcome i) :: ds)
      | Throw e => (Throw e, [delivery item (outcome i)])
      end
  end.


End HandleChannels.

Module RunnerTrace.
Import ScriptRunner.

(** The steps of [runWorkspaceScript] after the resolution of the paths,
    each known by the call it makes. *)
Definition isNormalization (e : Event) : bool :=
  match e with EvNormalizePath _ _ _ => true | _ => false end.
Definition isStatCheck (e : Event) : bool :=
  match e with EvStat _ _ => true | _ => false end.
Definition isAllocation (e : Event) : bool :=
  match e with EvExecBuffered _ _ _ _ => true | _ => false end.
Definition isToolCall (e : Event) : bool :=
  match e with EvBashExecute _ _ _ _ => true | _ => false end.
Definition isCleanup (e : Event) : bool :=
  match e with EvExecDetached _ _ _ => true | _ => false end.

(** The call recorded by an event threw. *)
Definition threw (e : Event) : bool :=
  match e with
  | EvResolvePath _ (Throw _) | EvStat _ (Throw _)
  | EvNormalizePath _ _ (Throw _) | EvExecBuffered _ _ _ (Throw _)
  | EvBashExecute _ _ _ (Throw _) => true
  | _ => false
  end.

(** The calls of a [try] block that was left by an exception: all
    returned but the last one, which threw. *)
Definition failedAttempt (t : list Event) : bool :=
  match reverse t with
  | e :: before => threw e && forallb (fun e => negb (threw e)) before
  | [] => false
  end.

End RunnerTrace.
(** The workspace of a fixture behind a runtime whose temp-dir command
    ends as given. *)
Module AllocationFixture.
Import ScriptRunner.

Definition host (allocation : ExecResult) (fx : Fixture.t) : Host unit :=
  {| resolvePath := resolvePath (Fixture.host fx);
     stat := stat (Fixture.host fx);
     normalizePath := normalizePath (Fixture.host fx);
     execBuffered := fun _ _ _ w => (Normal allocation, w);
     bashExecute := bashExecute (Fixture.host fx);
     dateNow := dateNow (Fixture.host fx);
     getScriptPath := getScriptPath (Fixture.host fx);
     getScriptsDir := getScriptsDir (Fixture.host fx);
     getLegacyScriptPath := getLegacyScriptPath (Fixture.host fx);
     getLegacyScriptsDir := getLegacyScriptsDir (Fixture.host fx) |}.

(** [mktemp] failed: the disk is full. *)
Definition diskFull : ExecResult :=
  {| exec_stdout := EmptyString;
     exec_stderr := "mktemp: failed to create directory: No space left on device";
     exec_exitCode := 1 |}.

End AllocationFixture.

(** * Properties *)

(** ** Symbolic execution of the runner *)

Ltac unfold_runner :=
  cbv beta iota zeta delta
    [ScriptRunner.runWorkspaceScript
     ScriptRunner.cleanupTempDir
     ScriptRunner.runtime_resolvePath ScriptRunner.runtime_stat
     ScriptRunner.runtime_normalizePath ScriptRunner.await_execBuffered
     ScriptRunner.void_execBuffered ScriptRunner.date_now
     ScriptRunner.skipCleanup ScriptRunner.cleanupScheduled
     bind ret tryCatch call callDetached
     completion finalWorld events fst snd orb andb negb];
  cbn [app].

Ltac atomic_scrutinee x :=
  lazymatch x with
  | context [match _ with _ => _ end] => fail
  | _ => idtac
  end.

Ltac exec_step :=
  match goal with
  | |- context [match ?x with _ => _ end] =>
      atomic_scrutinee x; destruct x eqn:?; unfold_runner
  end.

Ltac exec_runner := unfold_runner; repeat exec_step; simplify_eq.

(** Symbolic execution of the one run a goal talks about: the property is
    set aside while the run is unfolded, then stated of each outcome. *)
Ltac exec_run :=
  match goal with
  | |- context [ScriptRunner.runWorkspaceScript ?h ?ws ?n ?a ?o ?w] =>
      let Q := fresh "Q" in
      pattern (ScriptRunner.runWorkspaceScript h ws n a o w);
      match goal with |- ?P _ => set (Q := P) end;
      exec_runner; subst Q; cbv beta;
      unfold completion, events; cbn [fst snd]
  end.

(** ** CircularBuffer: the cases of its test suite *)

Example buffer_stores_up_to_capacity :
  let b := CircularBuffer.pushAll [1; 2; 3] (CircularBuffer.new 3) in
  CircularBuffer.length b = 3 /\
  CircularBuffer.toArray b = [Some 1; Some 2; Some 3].
Proof. split; reflexivity. Qed.

Example buffer_overwrites_oldest :
  let b := CircularBuffer.pushAll [1; 2; 3; 4; 5] (CircularBuffer.new 3) in
  CircularBuffer.length b = 3 /\
  CircularBuffer.isFull b = true /\
  CircularBuffer.toArray b = [Some 3; Some 4; Some 5].
Proof. repeat split; reflexivity. Qed.

Example buffer_after_hundred_pushes :
  CircularBuffer.toArray
    (CircularBuffer.pushAll (seq 1 100) (CircularBuffer.new 5))
  = [Some 96; Some 97; Some 98; Some 99; Some 100].
Proof. vm_compute. reflexivity. Qed.

Example buffer_empty :
  let b := CircularBuffer.new (T := string) 10 in
  CircularBuffer.length b = 0 /\ CircularBuffer.isEmpty b = true /\
  CircularBuffer.isFull b = false /\ CircularBuffer.toArray b = [].
Proof. repeat split; reflexivity. Qed.

Example buffer_cleared :
  let b := CircularBuffer.clear
             (CircularBuffer.pushAll [1; 2; 3] (CircularBuffer.new 3)) in
  CircularBuffer.length b = 0 /\ CircularBuffer.isEmpty b = true /\
  CircularBuffer.toArray b = [].
Proof. repeat split; reflexivity. Qed.

(** ** Facts about CircularBuffer *)

Lemma mod_add_inj C a j k :
  j < C -> k < C -> (a + j) mod C = (a + k) mod C -> j = k.
Proof.
  intros Hj Hk E.
  pose proof (Nat.div_mod_eq (a + j) C) as E1.
  pose proof (Nat.div_mod_eq (a + k) C) as E2.
  rewrite E in E1.
  set (q1 := (a + j) / C) in *. set (q2 := (a + k) / C) in *.
  set (r := (a + k) mod C) in *. clearbody q1 q2 r.
  assert (q1 = q2 \/ q1 < q2 \/ q2 < q1) as [?|[?|?]] by lia; subst; nia.
Qed.

Lemma mod_add_cap C a : a < C -> (a + C) mod C = a.
Proof.
  intros Ha. replace (a + C) with (a + 1 * C) by lia.
  rewrite Nat.Div0.mod_add. apply Nat.mod_small. lia.
Qed.

Section CircularBufferFacts.
Context {T : Type}.
Import CircularBuffer.

Lemma array_get_set_same (arr : list (option T)) i x :
  i < List.length arr -> array_get (array_set i x arr) i = Some x.
Proof.
  intros Hi. unfold array_get, array_set.
  destruct (Nat.ltb_spec i (List.length arr)); [|lia].
  by rewrite list_lookup_insert_eq.
Qed.

Lemma array_get_set_other (arr : list (option T)) i j x :
  i < List.length arr -> i <> j ->
  array_get (array_set i x arr) j = array_get arr j.
Proof.
  intros Hi Hij. unfold array_get, array_set.
  destruct (Nat.ltb_spec i (List.length arr)); [|lia].
  by rewrite list_lookup_insert_ne.
Qed.

Lemma array_set_length (arr : list (option T)) i x :
  i < List.length arr -> List.length (array_set i x arr) = List.length arr.
Proof.
  intros Hi. unfold array_set.
  destruct (Nat.ltb_spec i (List.length arr)); [|lia].
  apply length_insert.
Qed.

Lemma represents_new C : represents C (new C) (@nil T).
Proof.
  unfold represents, new; simpl. rewrite length_replicate.
  repeat split; try lia.
  intros HC. simpl. symmetry. apply Nat.mod_small. lia.
Qed.

Lemma represents_push C (b : t T) (l : list T) (x : T) :
  1 <= C -> represents C b l -> represents C (push x b) (retain C l x).
Proof.
  intros HC (Hcap & Hlen & Hsz & Hle & Hhd & Htl & Hget).
  specialize (Hhd HC). specialize (Htl HC).
  assert (Htl_lt : tail b < List.length (buffer b)).
  { rewrite Htl, Hlen. apply Nat.mod_upper_bound. lia. }
  unfold push, retain. rewrite Hcap, Hsz.
  destruct (Nat.ltb_spec (List.length l) C) as [Hlt | Hge].
  - (* room left: the item is appended *)
    unfold represents; simpl. rewrite array_set_length by done.
    rewrite length_app. simpl.
    repeat split; try lia.
    + intros _. rewrite Htl, Hsz. rewrite Nat.Div0.add_mod_idemp_l.
      f_equal. lia.
    + intros k Hk.
      destruct (decide (k = List.length l)) as [-> | Hne].
      * replace ((head b + List.length l) mod C) with (tail b)
          by (by rewrite Htl, Hsz).
        rewrite array_get_set_same by done.
        rewrite lookup_app_r by lia. by rewrite Nat.sub_diag.
      * rewrite array_get_set_other; [| done |].
        -- rewrite lookup_app_l by lia. apply Hget. lia.
        -- rewrite Htl, Hsz. intros E.
           apply mod_add_inj in E; lia.
  - (* full: the oldest item is overwritten *)
    assert (Hfull : List.length l = C) by lia.
    assert (Htl' : tail b = head b).
    { rewrite Htl, Hsz, Hfull. by apply mod_add_cap. }
    unfold represents; simpl. rewrite array_set_length by done.
    rewrite length_app, length_drop. simpl.
    repeat split; try lia.
    + intros _. apply Nat.mod_upper_bound. lia.
    + intros _. rewrite Htl', Hfull.
      symmetry. apply mod_add_cap. apply Nat.mod_upper_bound. lia.
    + intros k Hk. rewrite Htl'.
      rewrite Nat.Div0.add_mod_idemp_l.
      replace (head b + 1 + k) with (head b + (1 + k)) by lia.
      destruct (decide (k = C - 1)) as [-> | Hne].
      * replace (1 + (C - 1)) with C by lia.
        rewrite mod_add_cap by done.
        rewrite array_get_set_same by lia.
        rewrite lookup_app_r by (rewrite length_drop; lia).
        rewrite length_drop.
        by replace (C - 1 - (List.length l - 1)) with 0 by lia.
      * rewrite array_get_set_other; [| lia |].
        -- rewrite lookup_app_l by (rewrite length_drop; lia).
           rewrite lookup_drop. apply Hget. lia.
        -- intros E. rewrite <- (Nat.mod_small (head b) C) in E at 1 by done.
           rewrite <- (Nat.add_0_r (head b)) in E at 1.
           apply mod_add_inj in E; lia.
Qed.

Lemma toArray_loop_represents C (b : t T) (l : list T) n j :
  1 <= C -> represents C b l -> j + n <= List.length l ->
  toArray_loop b n ((head b + j) mod C) = Some <$> take n (drop j l).
Proof.
  intros HC Hrep. revert j.
  induction n as [| n IH]; intros j Hj; simpl.
  - done.
  - destruct Hrep as (Hcap & Hlen & Hsz & Hle & Hhd & Htl & Hget).
    rewrite Hget by lia. rewrite Hcap.
    rewrite Nat.Div0.add_mod_idemp_l.
    replace (head b + j + 1) with (head b + S j) by lia.
    rewrite IH by lia.
    destruct (lookup_lt_is_Some_2 l j ltac:(lia)) as [y Hy].
    rewrite Hy. rewrite (drop_S l y j Hy). simpl. reflexivity.
Qed.

Lemma toArray_represents C (b : t T) (l : list T) :
  1 <= C -> represents C b l -> toArray b = Some <$> l.
Proof.
  intros HC Hrep. unfold toArray.
  pose proof Hrep as (Hcap & Hlen & Hsz & Hle & Hhd & Htl & Hget).
  destruct (Nat.eqb_spec (size b) 0) as [E | E].
  - rewrite Hsz in E. by destruct l.
  - rewrite <- (Nat.mod_small (head b) C) by auto.
    rewrite <- (Nat.add_0_r (head b)).
    rewrite (toArray_loop_represents C b l) by (done || lia).
    rewrite drop_0, Hsz. by rewrite firstn_all.
Qed.

Lemma represents_pushAll C (xs : list T) (b : t T) (l : list T) :
  1 <= C -> represents C b l ->
  represents C (pushAll xs b) (fold_left (retain C) xs l).
Proof.
  intros HC. revert b l.
  induction xs as [| x xs IH]; intros b l Hrep; simpl; [done |].
  apply IH. by apply represents_push.
Qed.

Lemma retain_all_last C (xs : list T) :
  1 <= C -> fold_left (retain C) xs [] = drop (List.length xs - C) xs.
Proof.
  intros HC. induction xs as [| x xs IH] using rev_ind; [done |].
  rewrite fold_left_app. simpl. rewrite IH. unfold retain.
  rewrite length_drop, length_app. simpl.
  destruct (Nat.ltb_spec (List.length xs - (List.length xs - C)) C) as [H | H].
  - replace (List.length xs - C) with 0 by lia.
    replace (List.length xs + 1 - C) with 0 by lia.
    by rewrite !drop_0.
  - rewrite drop_drop.
    replace (List.length xs - C + 1) with (List.length xs + 1 - C) by lia.
    rewrite drop_app_le by lia. done.
Qed.

End CircularBufferFacts.

(** C7: for a buffer of capacity [C >= 1], after pushing the items [xs]
    (in list order) into a fresh buffer: the size never exceeds [C]; when
    at least [C] items were pushed, [toArray] is exactly the last [C] of
    them in push order, [length] is [C] and [isFull] holds; when fewer
    were pushed, [toArray] is all of them in push order.  In particular
    1,2,3,4,5 pushed into a buffer of capacity 3 leaves [3,4,5]. *)
Theorem circular_buffer_keeps_last_items (T : Type) (C : nat) (xs : list T) :
  1 <= C ->
  let b := CircularBuffer.pushAll xs (CircularBuffer.new C) in
  CircularBuffer.size b <= C /\
  (C <= List.length xs ->
     CircularBuffer.toArray b = Some <$> drop (List.length xs - C) xs /\
     CircularBuffer.length b = C /\
     CircularBuffer.isFull b = true) /\
  (List.length xs < C ->
     CircularBuffer.toArray b = Some <$> xs /\
     CircularBuffer.length b = List.length xs) /\
  CircularBuffer.toArray
    (CircularBuffer.pushAll [1; 2; 3; 4; 5] (CircularBuffer.new 3))
  = [Some 3; Some 4; Some 5].
Proof.
  intros HC b.
  assert (Hrep : represents C b (drop (List.length xs - C) xs)).
  { rewrite <- retain_all_last by done.
    apply represents_pushAll; [done | apply represents_new]. }
  pose proof (toArray_represents C b _ HC Hrep) as Harr.
  destruct Hrep as (Hcap & _ & Hsz & Hle & _).
  rewrite length_drop in Hsz, Hle.
  split; [lia |]. split; [| split].
  - intros Hn. split; [done |]. unfold CircularBuffer.length, CircularBuffer.isFull.
    rewrite Hcap. split; [lia |]. apply Nat.eqb_eq. lia.
  - intros Hn. unfold CircularBuffer.length.
    replace (List.length xs - C) with 0 in * by lia.
    rewrite drop_0 in Harr. split; [done | lia].
  - reflexivity.
Qed.

Lemma circular_buffer_keeps_last_items_witness :
  let b := CircularBuffer.pushAll [1; 2; 3; 4; 5] (CircularBuffer.new 3) in
  CircularBuffer.toArray b = [Some 3; Some 4; Some 5] /\
  CircularBuffer.length b = 3 /\
  CircularBuffer.isFull b = true.
Proof.
  pose proof (circular_buffer_keeps_last_items nat 3 [1; 2; 3; 4; 5]
                ltac:(lia)) as (_ & Hfull & _).
  exact (Hfull ltac:(simpl; lia)).
Defined.

(** ** JavaScript string primitives: what they compute *)

Lemma append_nil_l (s : string) : EmptyString +:+ s = s.
Proof. reflexivity. Qed.

Lemma append_cons (a : ascii) (s t : string) :
  String a s +:+ t = String a (s +:+ t).
Proof. reflexivity. Qed.

Lemma append_nil_r (s : string) : s +:+ EmptyString = s.
Proof. induction s; [done |]. rewrite append_cons. by f_equal. Qed.

Lemma length_append (s t : string) :
  String.length (s +:+ t) = String.length s + String.length t.
Proof. induction s; [done |]. rewrite append_cons. simpl. by f_equal. Qed.

Lemma append_inj_l (p a b : string) : p +:+ a = p +:+ b -> a = b.
Proof.
  induction p; [done |]. rewrite !append_cons. intros H. injection H. auto.
Qed.

Lemma append_assoc (a b c : string) : (a +:+ b) +:+ c = a +:+ (b +:+ c).
Proof. induction a; [done |]. rewrite !append_cons. by f_equal. Qed.

Lemma startsWith_spec s p :
  Js.startsWith s p = true <-> exists r, s = p +:+ r.
Proof.
  revert s. induction p as [| a p IH]; intros s; simpl.
  - split; [intros _; by exists s | done].
  - destruct s as [| b s].
    + split; [done | intros [r Hr]; discriminate].
    + destruct (Ascii.eqb_spec a b) as [-> | Hne]; simpl.
      * rewrite IH. split; intros [r Hr]; exists r;
          rewrite append_cons in *; congruence.
      * split; [done | intros [r Hr]; rewrite append_cons in Hr; congruence].
Qed.

Lemma includes_spec s sub : Js.includes s sub = true <-> occursIn sub s.
Proof.
  unfold occursIn. induction s as [| a s IH]; simpl.
  - rewrite orb_false_r, startsWith_spec. split.
    + intros [r Hr]. by exists EmptyString, r.
    + intros (l & r & H). destruct l; [| discriminate].
      exists r. exact H.
  - rewrite orb_true_iff, startsWith_spec, IH. split.
    + intros [[r Hr] | (l & r & Hr)].
      * by exists EmptyString, r.
      * exists (String a l), r. rewrite append_cons. by rewrite Hr.
    + intros (l & r & H). destruct l as [| b l].
      * left. by exists r.
      * right. exists l, r. rewrite append_cons in H. congruence.
Qed.

Lemma includes_false_spec s sub :
  Js.includes s sub = false <-> ~ occursIn sub s.
Proof.
  rewrite <- includes_spec. by destruct (Js.includes s sub).
Qed.

Example trim_strips_both_ends :
  Js.trim ("  /tmp/tmp.Xa3 " +:+ String (ascii_of_nat 10) EmptyString)
  = "/tmp/tmp.Xa3".
Proof. reflexivity. Qed.

Example trim_keeps_inner_blanks : Js.trim " a  b " = "a  b".
Proof. reflexivity. Qed.

Example trailing_slashes_stripped :
  Js.stripTrailingSlashes "/a//b///" = "/a//b" /\
  Js.stripTrailingSlashes "///" = EmptyString.
Proof. split; reflexivity. Qed.

Example includes_finds_marker :
  Js.includes "bash: [OUTPUT OVERFLOW - too long]" "[OUTPUT OVERFLOW -" = true /\
  Js.includes "OUTPUT OVERFLOW" "[OUTPUT OVERFLOW -" = false /\
  Js.includes "build" EmptyString = true.
Proof. repeat split; reflexivity. Qed.

(** A persistent temp root made of blanks or of slashes only leaves no
    persistent base. *)
Example persistent_base_of_root_dir :
  let options dir :=
    {| ScriptRunner.env := None; ScriptRunner.secrets := None;
       ScriptRunner.timeoutSecs := None; ScriptRunner.abortSignal := None;
       ScriptRunner.overflowPolicy := None;
       ScriptRunner.persistentTempDir := Some dir |} in
  ScriptRunner.persistentBaseOf (options " C:\tmp\mux\ ") = Some "C:/tmp/mux" /\
  ScriptRunner.persistentBaseOf (options "   ") = None /\
  ScriptRunner.persistentBaseOf (options "/") = Some EmptyString /\
  ScriptRunner.persistentBaseSet (ScriptRunner.persistentBaseOf (options "/")) = false.
Proof. repeat split; reflexivity. Qed.

Example command_line_is_read_back :
  ScriptRunner.buildCommand "/ws/.mux/scripts/build" ["a b"; "it's"; "$(reboot)"]
  = "'/ws/.mux/scripts/build' 'a b' 'it'\''s' '$(reboot)'" /\
  ScriptRunner.shellWords
    (ScriptRunner.buildCommand "/ws/.mux/scripts/build" ["a b"; "it's"; "$(reboot)"])
  = Some ["/ws/.mux/scripts/build"; "a b"; "it's"; "$(reboot)"].
Proof. split; reflexivity. Qed.

(** ** The resolution block *)

Section RunnerFacts.
Import ScriptRunner.
Context {W : Type} (host : Host W).

Lemma resolveScriptPaths_spec ws name w :
  let r := resolveScriptPaths host ws name w in
  forallb isLookup (events r) = true /\
  (exists c rest,
     events r = EvResolvePath (getScriptPath host ws name) c :: rest) /\
  (forall p d, completion r = Normal (p, d) ->
     (In (EvResolvePath (getScriptPath host ws name) (Normal p)) (events r) /\
      In (EvResolvePath (getScriptsDir host ws) (Normal d)) (events r)) \/
     (In (EvResolvePath (getLegacyScriptPath host ws name) (Normal p)) (events r) /\
      In (EvResolvePath (getLegacyScriptsDir host ws) (Normal d)) (events r))) /\
  (forall e, completion r = Throw e ->
     exists pre q, events r = pre ++ [EvResolvePath q (Throw e)]).
Proof.
  cbv zeta. unfold resolveScriptPaths. exec_runner.
  all: (split; [reflexivity |]); (split; [eauto |]).
  all: split; [intros p d [= <- <-] || (intros p d [=]); simpl; tauto |].
  all: intros ? [=]; subst.
  all: first
    [ eexists [], _; reflexivity
    | eexists [_], _; reflexivity
    | eexists [_; _], _; reflexivity
    | eexists [_; _; _], _; reflexivity
    | eexists [_; _; _; _], _; reflexivity
    | eexists [_; _; _; _; _], _; reflexivity
    | eexists [_; _; _; _; _; _], _; reflexivity
    | eexists [_; _; _; _; _; _; _], _; reflexivity ].
Qed.

Lemma lookups_invisible (t : list Event) :
  forallb isLookup t = true ->
  existsb isExecution t = false /\ normalizedPaths t = [] /\
  cleanups t = [] /\ engineCalls t = [] /\
  forall e, In e t -> isLookup e = true.
Proof.
  induction t as [| e t IH]; simpl; [by intuition |].
  intros [He Ht]%andb_prop. destruct (IH Ht) as (H1 & H2 & H3 & H4 & H5).
  unfold normalizedPaths, cleanups, engineCalls in *.
  destruct e; try discriminate; simpl; rewrite ?H1, ?H2, ?H3, ?H4;
    (repeat split; [done .. |]); intros e' [<- | Hin]; auto.
Qed.

Lemma string_head_neq (a b : ascii) (s t u v : string) :
  a <> b -> String a s +:+ t <> String b u +:+ v.
Proof. intros Hne. rewrite !append_cons. congruence. Qed.

(** C2: a script name that contains a slash, a backslash or two dots makes
    [runWorkspaceScript] return the invalid-name error at once: the world
    is untouched and no operation of the runtime was called.  A name with
    none of them passes the validation: the run does not end with that
    error, and goes on to resolve the canonical script path. *)
Theorem invalid_script_name_rejected_before_io
    ws name args opts (w : W) :
  let r := runWorkspaceScript host ws name args opts w in
  let hasSeparator :=
    occursIn "/" name \/ occursIn "\" name \/ occursIn ".." name in
  (hasSeparator -> r = (Normal (Err (invalidNameError name)), w, [])) /\
  (~ hasSeparator ->
   completion r <> Normal (Err (invalidNameError name)) /\
   exists c rest,
     events r = EvResolvePath (getScriptPath host ws name) c :: rest).
Proof.
  cbv zeta. rewrite <- !includes_spec. split.
  - intros H. unfold runWorkspaceScript.
    destruct (Js.includes name "/"); [done |].
    destruct (Js.includes name "\"); [done |].
    destruct (Js.includes name ".."); [done |].
    by destruct H as [? | [? | ?]].
  - intros H.
    pose proof (resolveScriptPaths_spec ws name w) as (_ & (c & rest & Hfirst) & _).
    revert Hfirst. unfold events. exec_runner; intros Hfirst.
    all: try (exfalso; apply H; tauto).
    all: cbn [snd] in Hfirst; rewrite Hfirst; cbn [app]; (split; [| eauto]).
    all: try discriminate.
    all: intros [= E]; revert E;
      unfold invalidNameError, pathEscapeError, isDirectoryError,
        notFoundError, tempDirError, emptyTempDirError, executionFailedError.
    all: try (by apply string_head_neq).
    all: intros E; do 2 apply append_inj_l in E; discriminate.
Qed.

Lemma resolve_facts ws name (w : W) c w1 t1 :
  resolveScriptPaths host ws name w = (c, w1, t1) ->
  existsb isExecution t1 = false /\ normalizedPaths t1 = [] /\
  cleanups t1 = [] /\ engineCalls t1 = [] /\
  (forall e, In e t1 -> isLookup e = true) /\
  (forall p d, c = Normal (p, d) ->
     (In (EvResolvePath (getScriptPath host ws name) (Normal p)) t1 /\
      In (EvResolvePath (getScriptsDir host ws) (Normal d)) t1) \/
     (In (EvResolvePath (getLegacyScriptPath host ws name) (Normal p)) t1 /\
      In (EvResolvePath (getLegacyScriptsDir host ws) (Normal d)) t1)) /\
  (forall e, c = Throw e -> exists pre q, t1 = pre ++ [EvResolvePath q (Throw e)]).
Proof.
  intros Heq.
  pose proof (resolveScriptPaths_spec ws name w) as (Hlook & _ & Hprov & Hthrow).
  rewrite Heq in Hlook, Hprov, Hthrow. unfold events, completion in *.
  simpl in *. apply lookups_invisible in Hlook.
  destruct Hlook as (? & ? & ? & ? & ?). by repeat split.
Qed.

Lemma normalizedPaths_app (a b : list Event) :
  normalizedPaths (a ++ b) = normalizedPaths a ++ normalizedPaths b.
Proof. apply omap_app. Qed.

Lemma cleanups_app (a b : list Event) :
  cleanups (a ++ b) = cleanups a ++ cleanups b.
Proof. apply omap_app. Qed.

Lemma engineCalls_app (a b : list Event) :
  engineCalls (a ++ b) = engineCalls a ++ engineCalls b.
Proof. apply omap_app. Qed.

End RunnerFacts.

(** The facts about the resolution block of the run at hand, and the
    observations of its trace reduced to those of the later events. *)
Ltac use_resolution :=
  match goal with
  | H : ScriptRunner.resolveScriptPaths _ _ _ _ = _ |- _ =>
      apply resolve_facts in H;
      destruct H as (Hexec & Hnorm & Hclean & Hcalls & Hlook & Hprov & Hthrow)
  end.

Ltac observe :=
  rewrite ?existsb_app, ?normalizedPaths_app, ?cleanups_app, ?engineCalls_app;
  repeat match goal with
  | H : existsb ScriptRunner.isExecution _ = false |- _ => rewrite !H
  | H : ScriptRunner.normalizedPaths _ = [] |- _ => rewrite !H
  | H : ScriptRunner.cleanups _ = [] |- _ => rewrite !H
  | H : ScriptRunner.engineCalls _ = [] |- _ => rewrite !H
  end;
  cbn [existsb ScriptRunner.isExecution ScriptRunner.normalizedPaths
       ScriptRunner.cleanups ScriptRunner.engineCalls omap app orb
       ScriptRunner.script].

(** ** The command line can be read back *)

Section CommandFacts.
Import ScriptRunner.

Lemma singleQuoted_nonempty s : Js.truthy (singleQuoted s) = true.
Proof. reflexivity. Qed.

Lemma join_singleQuoted_truthy (args : list string) :
  Js.truthy (Js.join " " (map singleQuoted args))
  = match args with [] => false | _ :: _ => true end.
Proof. destruct args as [| a [| b rest]]; reflexivity. Qed.

Lemma buildCommand_join p (args : list string) :
  buildCommand p args = Js.join " " (map singleQuoted (p :: args)).
Proof.
  unfold buildCommand. rewrite join_singleQuoted_truthy.
  destruct args as [| a rest]; [apply append_nil_r | reflexivity].
Qed.

Lemma append_snoc (w : string) (c : ascii) (s : string) :
  (w +:+ String c EmptyString) +:+ s = w +:+ String c s.
Proof. by rewrite append_assoc. Qed.

Lemma shellWords_open word rest :
  shellWordsFrom Unquoted word (String squote rest)
  = shellWordsFrom SingleQuoted (Some (default EmptyString word)) rest.
Proof. reflexivity. Qed.

Lemma shellWords_close word rest :
  shellWordsFrom SingleQuoted word (String squote rest)
  = shellWordsFrom Unquoted word rest.
Proof. reflexivity. Qed.

Lemma shellWords_literal w c rest :
  c <> squote ->
  shellWordsFrom SingleQuoted (Some w) (String c rest)
  = shellWordsFrom SingleQuoted (Some (w +:+ String c EmptyString)) rest.
Proof.
  intros Hc. cbn [shellWordsFrom].
  by rewrite (proj2 (Ascii.eqb_neq c squote) Hc).
Qed.

Lemma shellWords_escaped w c rest :
  shellWordsFrom Unquoted (Some w) (String backslash (String c rest))
  = shellWordsFrom Unquoted (Some (w +:+ String c EmptyString)) rest.
Proof. reflexivity. Qed.

Lemma shellWords_blank w rest :
  shellWordsFrom Unquoted (Some w) (String " " rest)
  = option_map (cons w) (shellWordsFrom Unquoted None rest).
Proof. reflexivity. Qed.

Lemma shellWords_quoted_text s w rest :
  shellWordsFrom SingleQuoted (Some w)
    (escapeSingleQuotes s +:+ String squote rest)
  = shellWordsFrom Unquoted (Some (w +:+ s)) rest.
Proof.
  revert w. induction s as [| c s IH]; intros w.
  - by rewrite append_nil_l, append_nil_r, shellWords_close.
  - unfold escapeSingleQuotes in *. cbn [Js.replaceAllChar].
    destruct (Ascii.eqb_spec c squote) as [-> | Hc].
    + rewrite append_assoc, !append_cons, append_nil_l.
      rewrite shellWords_close, shellWords_escaped, shellWords_open.
      cbn [default from_option id]. rewrite IH. by rewrite append_snoc.
    + rewrite append_assoc, !append_cons, append_nil_l.
      rewrite shellWords_literal by done. rewrite IH. by rewrite append_snoc.
Qed.

Lemma shellWords_singleQuoted s word rest :
  shellWordsFrom Unquoted word (singleQuoted s +:+ rest)
  = shellWordsFrom Unquoted (Some (default EmptyString word +:+ s)) rest.
Proof.
  unfold singleQuoted. rewrite append_assoc, !append_cons, append_nil_l.
  rewrite shellWords_open.
  apply shellWords_quoted_text.
Qed.

Lemma shellWords_join p (args : list string) :
  shellWords (Js.join " " (map singleQuoted (p :: args))) = Some (p :: args).
Proof.
  unfold shellWords. revert p.
  induction args as [| a args IH]; intros p.
  - cbn [map Js.join]. rewrite <- (append_nil_r (singleQuoted p)).
    by rewrite shellWords_singleQuoted.
  - change (Js.join " " (map singleQuoted (p :: a :: args)))
      with (singleQuoted p +:+ " " +:+ Js.join " " (map singleQuoted (a :: args))).
    rewrite shellWords_singleQuoted. rewrite append_cons, append_nil_l.
    rewrite shellWords_blank. cbn [default from_option id].
    rewrite append_nil_l. by rewrite IH.
Qed.

(** The command line determines the script path and the arguments. *)
Lemma buildCommand_inj p p' (args args' : list string) :
  buildCommand p args = buildCommand p' args' -> p = p' /\ args = args'.
Proof.
  rewrite !buildCommand_join. intros H.
  apply (f_equal shellWords) in H. rewrite !shellWords_join in H.
  by injection H.
Qed.

End CommandFacts.

Section RunnerProperties.
Import ScriptRunner.
Context {W : Type} (host : Host W).

(** Every call of the bash tool, seen from the trace: what came before,
    the command it got, the cleanup that follows and the result of the
    run. *)
Lemma engine_call_inv ws name args opts (w : W) cfg input co res :
  let r := runWorkspaceScript host ws name args opts w in
  In (EvBashExecute cfg input co res) (events r) ->
  exists pre p np,
    events r
    = pre ++ EvBashExecute cfg input co res
          :: (if skipsCleanup opts res then []
              else [EvExecDetached (rmCommand (cfg_runtimeTempDir cfg)) ws 5]) /\
    cleanups pre = [] /\ engineCalls pre = [] /\
    In (EvNormalizePath p ws (Normal np)) pre /\
    (exists q, In (EvResolvePath q (Normal p)) pre) /\
    script input = buildCommand p args /\
    cfg_overflow_policy cfg = default truncate (overflowPolicy opts) /\
    (exists tempDirResult,
       In (EvExecBuffered (tempDirCommandOf (persistentBaseOf opts)) ws 5
             (Normal tempDirResult)) pre /\
       cfg_runtimeTempDir cfg = Js.trim (exec_stdout tempDirResult)) /\
    completion r
    = Normal match res with
             | Normal toolResult => Ok (assembled toolResult)
             | Throw e => Err (executionFailedError e)
             end.
Proof.
  cbv zeta. exec_run; try use_resolution.
  all: intros Hin; try done.
  all: try (by apply Hlook in Hin).
  all: apply in_app_or in Hin; destruct Hin as [Hin | Hin];
    [by apply Hlook in Hin |].
  all: cbn [In] in Hin; try (by intuition discriminate).
  all: destruct Hin as [? | [? | [? | [? | [Hin | Hin]]]]]; try discriminate.
  all: try (cbn [In] in Hin; by intuition discriminate).
  all: injection Hin as <- <- <- <-.
  all: match goal with
       | |- context [EvNormalizePath ?p _ (Normal ?np) :: _ :: _] =>
           eexists (_ ++ [_; _; _; _]), p, np
       end.
  all: unfold skipsCleanup, rmCommand, assembled;
    cbn [cfg_runtimeTempDir script cfg_overflow_policy].
  all: repeat match goal with
       | H : _ = true |- _ => rewrite H
       | H : _ = false |- _ => rewrite H
       end.
  all: cbn [andb]; rewrite ?andb_false_r.
  all: rewrite <- app_assoc; cbn [app].
  all: (split; [reflexivity |]); observe.
  all: (split; [reflexivity |]); (split; [reflexivity |]).
  all: (split; [apply in_or_app; right; left; reflexivity |]).
  all: split;
    [destruct (Hprov _ _ eq_refl) as [[H1 _] | [H1 _]];
     eexists; apply in_or_app; left; exact H1 |].
  all: (split; [reflexivity |]); (split; [reflexivity |]).
  all: split; [| reflexivity].
  all: eexists; split; [| reflexivity].
  all: apply in_or_app; right; cbn [In]; tauto.
Qed.

(** How a run can end: with [Ok] after the bash tool returned, with an
    error from before the bash tool was reached or from the tool
    throwing, or with an exception thrown by the last call made. *)
Lemma run_outcome_cases ws name args opts (w : W) :
  let r := runWorkspaceScript host ws name args opts w in
  match completion r with
  | Normal (Ok res) =>
      exists cfg input co toolResult,
        In (EvBashExecute cfg input co (Normal toolResult)) (events r)
  | Normal (Err error) =>
      (engineCalls (events r) = [] /\ isPreExecutionError name error) \/
      (exists cfg input co e,
         In (EvBashExecute cfg input co (Throw e)) (events r))
  | Throw e =>
      engineCalls (events r) = [] /\
      exists pre last, events r = pre ++ [last] /\ thrownBy last e
  end.
Proof.
  cbv zeta. unfold isPreExecutionError. exec_run; try use_resolution.
  all: try (left; split; [by observe | by eauto 10]).
  all: try (right; do 4 eexists; apply in_or_app; right;
            cbn [In]; by eauto 10).
  all: try (do 4 eexists; apply in_or_app; right; cbn [In]; by eauto 10).
  all: split; [by observe |].
  all: first
    [ destruct (Hthrow _ eq_refl) as (pre & q & ->);
      by eexists pre, (EvResolvePath q (Throw _))
    | by eexists _, _
    | eexists (_ ++ [_]), _; by rewrite <- app_assoc
    | eexists (_ ++ [_; _]), _; by rewrite <- app_assoc
    | eexists (_ ++ [_; _; _]), _; by rewrite <- app_assoc ].
Qed.

(** C1: once [runWorkspaceScript] is past the containment check (it
    returns [Ok], or it reached temp-dir allocation or execution), the
    normalized resolved script path starts with the normalized resolved
    scripts directory followed by the separator, both paths being what
    [resolvePath] gave for the canonical or for the legacy location.  When
    the normalized script path does not start so, the run ends with the
    path-escape error, before any temp-dir allocation or execution. *)
Theorem resolved_script_path_contained_or_rejected
    ws name args opts (w : W) :
  let r := runWorkspaceScript host ws name args opts w in
  ((exists res, completion r = Normal (Ok res))
     \/ existsb isExecution (events r) = true ->
   exists p d np nd rest,
     normalizedPaths (events r) = [np; nd] /\
     np = nd +:+ separatorOf nd +:+ rest /\
     In (EvNormalizePath p ws (Normal np)) (events r) /\
     In (EvNormalizePath d ws (Normal nd)) (events r) /\
     ((In (EvResolvePath (getScriptPath host ws name) (Normal p)) (events r) /\
       In (EvResolvePath (getScriptsDir host ws) (Normal d)) (events r)) \/
      (In (EvResolvePath (getLegacyScriptPath host ws name) (Normal p)) (events r) /\
       In (EvResolvePath (getLegacyScriptsDir host ws) (Normal d)) (events r)))) /\
  (forall np nd,
     normalizedPaths (events r) = [np; nd] ->
     Js.startsWith np (nd +:+ separatorOf nd) = false ->
     completion r = Normal (Err (pathEscapeError name)) /\
     existsb isExecution (events r) = false).
Proof.
  cbv zeta. unfold separatorOf. exec_run; try use_resolution.
  all: split.
  all: try (intros [[res [=]] | Hx]; revert Hx; observe; discriminate).
  all: try (intros np nd; observe; intros [=]; subst; done).
  all: try (intros np nd; observe; intros [=]; subst;
            match goal with
            | H : Js.includes _ _ = _ |- _ => rewrite H
            end; congruence).
  all: intros _;
    match goal with
    | H : Js.startsWith ?np (?nd +:+ _) = true |- _ =>
        apply startsWith_spec in H; destruct H as [rest Hrest];
        rewrite append_assoc in Hrest
    end;
    match goal with
    | |- context [EvNormalizePath ?p _ (Normal ?np) ::
                  EvNormalizePath ?d _ (Normal ?nd) :: _] =>
        exists p, d, np, nd, rest
    end;
    observe;
    match goal with
    | H : Js.includes _ _ = _ |- _ => rewrite H
    end;
    specialize (Hprov _ _ eq_refl);
    (split; [done |]); (split; [done |]);
    (split; [apply in_or_app; right; left; reflexivity |]);
    (split; [apply in_or_app; right; right; left; reflexivity |]);
    destruct Hprov as [[H1 H2] | [H1 H2]]; [left | right];
    split; apply in_or_app; left; assumption.
Qed.



(** C4, as the code has it: after the bash tool returned, the cleanup
    command [rm -rf] of the per-call temp directory (the trimmed output of
    the temp-dir command, as given to the tool) is issued, not awaited,
    except exactly when the persistent base (the persistent temp root,
    trimmed, with slashes for backslashes and no trailing slash) is not
    empty, the overflow policy is [tmpfile], and the tool result is a
    failure whose error contains the marker [[OUTPUT OVERFLOW -]; then no
    cleanup command is issued at all. *)
Theorem temp_dir_cleanup_policy ws name args opts (w : W)
    cfg input co toolResult :
  let r := runWorkspaceScript host ws name args opts w in
  In (EvBashExecute cfg input co (Normal toolResult)) (events r) ->
  let skipped :=
    persistentBaseSet (persistentBaseOf opts)
    && OverflowPolicy_eqb (default truncate (overflowPolicy opts)) tmpfile
    && negb (success toolResult)
    && match toolResult with
       | BashFailure _ error _ => Js.includes error "[OUTPUT OVERFLOW -"
       | BashSuccess _ _ => false
       end in
  (exists tempDirResult,
     In (EvExecBuffered (tempDirCommandOf (persistentBaseOf opts)) ws 5
           (Normal tempDirResult)) (events r) /\
     cfg_runtimeTempDir cfg = Js.trim (exec_stdout tempDirResult)) /\
  cleanups (events r)
  = (if skipped then [] else [rmCommand (cfg_runtimeTempDir cfg)]) /\
  exists pre,
    cleanups pre = [] /\
    events r
    = pre ++ EvBashExecute cfg input co (Normal toolResult)
          :: (if skipped then []
              else [EvExecDetached (rmCommand (cfg_runtimeTempDir cfg)) ws 5]).
Proof.
  cbv zeta. intros Hin.
  destruct (engine_call_inv ws name args opts w _ _ _ _ Hin)
    as (pre & p & np & Hev & Hclean & _ & _ & _ & _ & _ & Htmp & _).
  split.
  { destruct Htmp as (tdr & Htdr & Hdir). exists tdr.
    split; [| done]. rewrite Hev. apply in_or_app. by left. }
  assert (Hskip : skipsCleanup opts (Normal toolResult)
                  = persistentBaseSet (persistentBaseOf opts)
                    && OverflowPolicy_eqb
                         (default truncate (overflowPolicy opts)) tmpfile
                    && negb (success toolResult)
                    && match toolResult with
                       | BashFailure _ error _ =>
                           Js.includes error "[OUTPUT OVERFLOW -"
                       | BashSuccess _ _ => false
                       end).
  { destruct toolResult; simpl; [by rewrite andb_false_r |].
    by rewrite andb_true_r. }
  rewrite <- Hskip. split; [| by exists pre].
  rewrite Hev, cleanups_app, Hclean.
  by destruct (skipsCleanup opts (Normal toolResult)).
Qed.


(** The path in the command line of a call of the bash tool: the script
    path the resolution returned, normalized first for the containment
    check and then found by [stat] not to be a directory. *)
Lemma engine_call_path ws name args opts (w : W) cfg input co res :
  let r := runWorkspaceScript host ws name args opts w in
  In (EvBashExecute cfg input co res) (events r) ->
  exists lookups p d np nd st post,
    events r
    = lookups ++ EvNormalizePath p ws (Normal np)
        :: EvNormalizePath d ws (Normal nd)
        :: EvStat p (Normal st) :: post /\
    forallb isLookup lookups = true /\
    isDirectory st = false /\
    ((In (EvResolvePath (getScriptPath host ws name) (Normal p)) lookups /\
      In (EvResolvePath (getScriptsDir host ws) (Normal d)) lookups) \/
     (In (EvResolvePath (getLegacyScriptPath host ws name) (Normal p)) lookups /\
      In (EvResolvePath (getLegacyScriptsDir host ws) (Normal d)) lookups)) /\
    script input = buildCommand p args.
Proof.
  cbv zeta. exec_run; try use_resolution.
  all: intros Hin; try done.
  all: try (by apply Hlook in Hin).
  all: apply in_app_or in Hin; destruct Hin as [Hin | Hin];
    [by apply Hlook in Hin |].
  all: cbn [In] in Hin;
    repeat (destruct Hin as [Hin | Hin]; [try discriminate Hin |]);
    try contradiction.
  all: injection Hin as <- <- <- <-.
  all: match goal with
       | |- context [?l ++ EvNormalizePath ?p _ (Normal ?np)
                       :: EvNormalizePath ?d _ (Normal ?nd)
                       :: EvStat ?p (Normal ?st) :: ?post] =>
           exists l, p, d, np, nd, st, post
       end.
  all: (split; [reflexivity |]).
  all: (split; [by apply forallb_forall |]).
  all: (split; [assumption |]).
  all: split; [exact (Hprov _ _ eq_refl) | reflexivity].
Qed.

(** C6, as the code has it: the command line handed to the bash tool is
    the quoted resolved script path followed by the quoted arguments, in
    order, joined by single spaces; quoting wraps a string in single quotes
    after replacing each single quote in it by the four characters
    quote, backslash, quote, quote.  The path is the script path the
    resolution returned for the canonical or the legacy location: the one
    normalized first for the containment check and then found by [stat]
    not to be a directory.  No other path and arguments give the same
    command line: nothing is dropped, reordered or merged. *)
Theorem command_line_quotes_every_segment ws name args opts (w : W)
    cfg input co res :
  let r := runWorkspaceScript host ws name args opts w in
  let quoted (s : string) :=
    String squote
      (Js.replaceAllChar squote
         (String squote (String backslash (String squote (String squote EmptyString))))
         s)
    +:+ String squote EmptyString in
  In (EvBashExecute cfg input co res) (events r) ->
  exists lookups p d np nd st post,
    events r
    = lookups ++ EvNormalizePath p ws (Normal np)
        :: EvNormalizePath d ws (Normal nd)
        :: EvStat p (Normal st) :: post /\
    forallb isLookup lookups = true /\
    isDirectory st = false /\
    ((In (EvResolvePath (getScriptPath host ws name) (Normal p)) lookups /\
      In (EvResolvePath (getScriptsDir host ws) (Normal d)) lookups) \/
     (In (EvResolvePath (getLegacyScriptPath host ws name) (Normal p)) lookups /\
      In (EvResolvePath (getLegacyScriptsDir host ws) (Normal d)) lookups)) /\
    script input = Js.join " " (map quoted (p :: args)) /\
    (forall p' args',
       script input = Js.join " " (map quoted (p' :: args')) ->
       p' = p /\ args' = args).
Proof.
  cbv zeta. intros Hin.
  destruct (engine_call_path ws name args opts w _ _ _ _ Hin)
    as (lookups & p & d & np & nd & st & post & Hev & Hlk & Hst & Hprov & Hcmd).
  exists lookups, p, d, np, nd, st, post.
  repeat (split; [assumption |]). split.
  - rewrite Hcmd. apply buildCommand_join.
  - intros p' args' H. rewrite Hcmd in H.
    change (buildCommand p args = Js.join " " (map singleQuoted (p' :: args'))) in H.
    rewrite <- buildCommand_join in H. symmetry in H.
    by apply buildCommand_inj in H.
Qed.

(** C10: whenever the bash tool returns a result, [runWorkspaceScript]
    returns [Ok], also for a failed tool result, which is kept in the
    record with its exit code.  An [Err] is either an error from before
    the bash tool was reached (name validation, path escape, directory,
    not found, temp-dir allocation) or the wrapped exception the bash tool
    threw. *)
Theorem engine_result_is_returned_as_ok ws name args opts (w : W) :
  let r := runWorkspaceScript host ws name args opts w in
  (forall cfg input co tr,
     In (EvBashExecute cfg input co (Normal tr)) (events r) ->
     exists res,
       completion r = Normal (Ok res) /\
       toolResult res = tr /\
       exitCode res = toolExitCode tr /\
       (forall output error code,
          tr = BashFailure output error code -> stderr res = error)) /\
  (forall error,
     completion r = Normal (Err error) ->
     (engineCalls (events r) = [] /\ isPreExecutionError name error) \/
     (exists cfg input co e,
        In (EvBashExecute cfg input co (Throw e)) (events r) /\
        error = executionFailedError e)).
Proof.
  cbv zeta. split.
  - intros cfg input co tr Hin.
    destruct (engine_call_inv ws name args opts w _ _ _ _ Hin)
      as (_ & _ & _ & _ & _ & _ & _ & _ & _ & _ & _ & Hres).
    exists (assembled tr). split; [exact Hres |].
    destruct tr; simpl; repeat split; congruence.
  - intros error Herr.
    pose proof (run_outcome_cases ws name args opts w) as Hcases.
    cbv zeta in Hcases. rewrite Herr in Hcases.
    destruct Hcases as [Hpre | (cfg & input & co & e & Hin)]; [by left |].
    right. exists cfg, input, co, e. split; [done |].
    destruct (engine_call_inv ws name args opts w _ _ _ _ Hin)
      as (_ & _ & _ & _ & _ & _ & _ & _ & _ & _ & _ & Hres).
    congruence.
Qed.

End RunnerProperties.

(** ** The background handle: buffering and delivery *)

Section HandleFacts.
Import LocalBackgroundHandle HandleChannels.


Lemma stdoutDelivered_app (a b : list Delivery) :
  stdoutDelivered (a ++ b) = stdoutDelivered a ++ stdoutDelivered b.
Proof. apply omap_app. Qed.

Lemma stderrDelivered_app (a b : list Delivery) :
  stderrDelivered (a ++ b) = stderrDelivered a ++ stderrDelivered b.
Proof. apply omap_app. Qed.

Lemma exitDelivered_app (a b : list Delivery) :
  exitDelivered (a ++ b) = exitDelivered a ++ exitDelivered b.
Proof. apply omap_app. Qed.

(** The loop of a flush leaves the handle as it is and makes the calls of
    [flushCalls]. *)
Lemma forEach_flush {A : Type} (delivery : A -> Completion unit -> Delivery)
    (outcome : nat -> Completion unit) (items : list A) (i : nat) (h : t) :
  forEach items (fun i item => invoke (delivery item) (outcome i)) i h
  = (fst (flushCalls delivery outcome i items), h,
     snd (flushCalls delivery outcome i items)).
Proof.
  revert i. induction items as [| item rest IH]; intros i; [done |].
  simpl. unfold bind, invoke at 1. destruct (outcome i) as [[] | e]; [| done].
  rewrite IH. by destruct (flushCalls delivery outcome (S i) rest).
Qed.


(** A flush of one channel, seen on each channel. *)
Lemma flush_stdout cb outcome i (lines : list string) :
  stderrDelivered (snd (flushCalls (StdoutLine cb) outcome i lines)) = [] /\
  exitDelivered (snd (flushCalls (StdoutLine cb) outcome i lines)) = [].
Proof.
  revert i. induction lines as [| l lines IH]; intros i; [done |].
  simpl. destruct (outcome i); [| done]. specialize (IH (S i)).
  by destruct (flushCalls (StdoutLine cb) outcome (S i) lines).
Qed.

Lemma flush_stderr cb outcome i (lines : list string) :
  stdoutDelivered (snd (flushCalls (StderrLine cb) outcome i lines)) = [] /\
  exitDelivered (snd (flushCalls (StderrLine cb) outcome i lines)) = [].
Proof.
  revert i. induction lines as [| l lines IH]; intros i; [done |].
  simpl. destruct (outcome i); [| done]. specialize (IH (S i)).
  by destruct (flushCalls (StderrLine cb) outcome (S i) lines).
Qed.



(** One call on a handle, computed up to the calls of its flush. *)
Ltac unfold_step :=
  unfold step, method, onStdout, onStderr, onExit,
    _emitStdout, _emitStderr, _emitExit;
  cbv beta iota zeta delta
    [bind ret read set_stdoutCallback set_stderrCallback
     set_exitCallback set_pendingStdout set_pendingStderr
     set_pendingExitCode finalWorld events completion fst snd
     stdoutCallback stderrCallback exitCallback terminated
     pendingStdout pendingStderr pendingExitCode];
  rewrite ?forEach_flush;
  cbv beta iota zeta delta [invoke fst snd].

Lemma step_OnStdout cb outcome (h : t) :
  step (OnStdout cb outcome) h
  = let flush := flushCalls (StdoutLine cb) outcome 0 (pendingStdout h) in
    ({| stdoutCallback := Some cb; stderrCallback := stderrCallback h;
        exitCallback := exitCallback h; terminated := terminated h;
        pendingStdout := match fst flush with
                         | Normal _ => []
                         | Throw _ => pendingStdout h
                         end;
        pendingStderr := pendingStderr h;
        pendingExitCode := pendingExitCode h |},
     snd flush).
Proof.
  destruct h. unfold_step. cbn [app].
  destruct (flushCalls _ _ _ _) as [[[] | e] ds]; simpl; by rewrite ?app_nil_r.
Qed.

Lemma step_OnStderr cb outcome (h : t) :
  step (OnStderr cb outcome) h
  = let flush := flushCalls (StderrLine cb) outcome 0 (pendingStderr h) in
    ({| stdoutCallback := stdoutCallback h; stderrCallback := Some cb;
        exitCallback := exitCallback h; terminated := terminated h;
        pendingStdout := pendingStdout h;
        pendingStderr := match fst flush with
                         | Normal _ => []
                         | Throw _ => pendingStderr h
                         end;
        pendingExitCode := pendingExitCode h |},
     snd flush).
Proof.
  destruct h. unfold_step. cbn [app].
  destruct (flushCalls _ _ _ _) as [[[] | e] ds]; simpl; by rewrite ?app_nil_r.
Qed.

Lemma step_OnExit cb outcome (h : t) :
  step (OnExit cb outcome) h
  = ({| stdoutCallback := stdoutCallback h; stderrCallback := stderrCallback h;
        exitCallback := Some cb; terminated := terminated h;
        pendingStdout := pendingStdout h; pendingStderr := pendingStderr h;
        pendingExitCode := match pendingExitCode h, outcome with
                           | Some code, Throw _ => Some code
                           | _, _ => None
                           end |},
     match pendingExitCode h with
     | Some code => [ExitCode cb code outcome]
     | None => []
     end).
Proof.
  destruct h as [? ? ? ? ? ? [code |]]; unfold_step; [| done].
  by destruct outcome as [[] | e].
Qed.

Lemma step_EmitStdout line outcome (h : t) :
  step (EmitStdout line outcome) h
  = match stdoutCallback h with
    | Some cb => (h, [StdoutLine cb line outcome])
    | None =>
        ({| stdoutCallback := None; stderrCallback := stderrCallback h;
            exitCallback := exitCallback h; terminated := terminated h;
            pendingStdout := pendingStdout h ++ [line];
            pendingStderr := pendingStderr h;
            pendingExitCode := pendingExitCode h |}, [])
    end.
Proof. destruct h as [[cb |] ? ? ? ? ? ?]; by unfold_step. Qed.

Lemma step_EmitStderr line outcome (h : t) :
  step (EmitStderr line outcome) h
  = match stderrCallback h with
    | Some cb => (h, [StderrLine cb line outcome])
    | None =>
        ({| stdoutCallback := stdoutCallback h; stderrCallback := None;
            exitCallback := exitCallback h; terminated := terminated h;
            pendingStdout := pendingStdout h;
            pendingStderr := pendingStderr h ++ [line];
            pendingExitCode := pendingExitCode h |}, [])
    end.
Proof. destruct h as [? [cb |] ? ? ? ? ?]; by unfold_step. Qed.

Lemma step_EmitExit code outcome (h : t) :
  step (EmitExit code outcome) h
  = match exitCallback h with
    | Some cb => (h, [ExitCode cb code outcome])
    | None =>
        ({| stdoutCallback := stdoutCallback h; stderrCallback := stderrCallback h;
            exitCallback := None; terminated := terminated h;
            pendingStdout := pendingStdout h; pendingStderr := pendingStderr h;
            pendingExitCode := Some code |}, [])
    end.
Proof. destruct h as [? ? [cb |] ? ? ? ?]; by unfold_step. Qed.

Ltac step_eq :=
  rewrite ?step_OnStdout, ?step_OnStderr, ?step_OnExit,
    ?step_EmitStdout, ?step_EmitStderr, ?step_EmitExit;
  cbv zeta.

















End HandleFacts.


(** Lines buffered before the registration go to the callback registered
    first, later ones to the callback registered last. *)
Example stdout_lines_before_and_after_registration :
  LocalBackgroundHandle.deliveries
    [LocalBackgroundHandle.EmitStdout "a" LocalBackgroundHandle.returned;
     LocalBackgroundHandle.EmitStderr "x" LocalBackgroundHandle.returned;
     LocalBackgroundHandle.EmitStdout "b" LocalBackgroundHandle.returned;
     LocalBackgroundHandle.OnStdout 7 LocalBackgroundHandle.returns;
     LocalBackgroundHandle.EmitStdout "c" LocalBackgroundHandle.returned;
     LocalBackgroundHandle.OnStdout 8 LocalBackgroundHandle.returns;
     LocalBackgroundHandle.EmitStdout "d" LocalBackgroundHandle.returned]
  = [LocalBackgroundHandle.StdoutLine 7 "a" (Normal tt);
     LocalBackgroundHandle.StdoutLine 7 "b" (Normal tt);
     LocalBackgroundHandle.StdoutLine 7 "c" (Normal tt);
     LocalBackgroundHandle.StdoutLine 8 "d" (Normal tt)].
Proof. reflexivity. Qed.

(** The pending exit code is one slot: of two exit codes that arrive before
    the registration only the second is kept. *)
Example second_early_exit_code_replaces_first :
  LocalBackgroundHandle.deliveries
    [LocalBackgroundHandle.EmitExit 1 LocalBackgroundHandle.returned;
     LocalBackgroundHandle.EmitExit 2 LocalBackgroundHandle.returned;
     LocalBackgroundHandle.OnExit 7 LocalBackgroundHandle.returned]
  = [LocalBackgroundHandle.ExitCode 7 2 (Normal tt)].
Proof. reflexivity. Qed.


(** ** The background handle: terminate *)

Section TerminateFacts.
Import LocalBackgroundHandle.

(** [terminate] aside, no method reads or writes the [terminated] flag. *)
Lemma step_setTerminated (c : Call) (h : t) :
  step c (setTerminated h) = (setTerminated (fst (step c h)), snd (step c h)).
Proof.
  destruct c;
    rewrite ?step_OnStdout, ?step_OnStderr, ?step_OnExit,
      ?step_EmitStdout, ?step_EmitStderr, ?step_EmitExit;
    cbv zeta; simpl;
    destruct (stdoutCallback h), (stderrCallback h), (exitCallback h); done.
Qed.

Lemma runCalls_setTerminated (cs : list Call) (h : t) :
  snd (runCalls cs (setTerminated h)) = snd (runCalls cs h) /\
  fst (runCalls cs (setTerminated h)) = setTerminated (fst (runCalls cs h)).
Proof.
  revert h. induction cs as [| c cs IH]; intros h; [done |].
  cbn [runCalls]. rewrite step_setTerminated.
  destruct (step c h) as [h1 d1]. cbn [fst snd].
  destruct (IH h1) as [H1 H2].
  destruct (runCalls cs (setTerminated h1)) as [h2 d2],
    (runCalls cs h1) as [h3 d3]. simpl in *. by subst.
Qed.

Lemma step_terminated (c : Call) (h : t) :
  terminated (fst (step c h)) = terminated h.
Proof.
  destruct c;
    rewrite ?step_OnStdout, ?step_OnStderr, ?step_OnExit,
      ?step_EmitStdout, ?step_EmitStderr, ?step_EmitExit;
    cbv zeta; simpl;
    destruct (stdoutCallback h), (stderrCallback h), (exitCallback h); done.
Qed.

Lemma runCalls_terminated (cs : list Call) (h : t) :
  terminated (fst (runCalls cs h)) = terminated h.
Proof.
  revert h. induction cs as [| c cs IH]; intros h; [done |].
  cbn [runCalls]. specialize (IH (fst (step c h))).
  rewrite step_terminated in IH.
  destruct (step c h) as [h1 d1]. cbn [fst] in IH.
  by destruct (runCalls cs h1).
Qed.

End TerminateFacts.

Ltac unfold_terminate :=
  cbv beta iota zeta delta
    [LocalBackgroundHandle.terminate LocalBackgroundHandle.terminate_begin
     LocalBackgroundHandle.terminate_finish
     LocalBackgroundHandle.terminate_catch LocalBackgroundHandle.timerFires
     LocalBackgroundHandle.log_debug
     LocalBackgroundHandle.process_kill LocalBackgroundHandle.setTimeout
     LocalBackgroundHandle.isRunning
     bind ret tryCatch call callDetached
     completion finalWorld events fst snd];
  cbn [app].

Ltac exec_terminate :=
  unfold_terminate;
  repeat match goal with
         | |- context [match ?x with _ => _ end] =>
             atomic_scrutinee x; destruct x eqn:?; unfold_terminate
         end.

Lemma terminate_on_terminated {W : Type}
    (child : LocalBackgroundHandle.Process W)
    (h : LocalBackgroundHandle.t) (w : W) :
  LocalBackgroundHandle.terminated h = true ->
  LocalBackgroundHandle.terminate child h w = (Normal h, w, []).
Proof. intros Ht. unfold_terminate. by rewrite Ht. Qed.

Lemma terminate_returns_terminated {W : Type}
    (child : LocalBackgroundHandle.Process W)
    (h : LocalBackgroundHandle.t) (w : W) :
  exists h',
    completion (LocalBackgroundHandle.terminate child h w) = Normal h' /\
    LocalBackgroundHandle.terminated h' = true.
Proof. exec_terminate; eauto. Qed.

(** On every path [terminate] returns the handle it was called on, or that
    handle with the flag set. *)
Lemma terminate_result {W : Type} (child : LocalBackgroundHandle.Process W)
    (h : LocalBackgroundHandle.t) (w : W) :
  completion (LocalBackgroundHandle.terminate child h w) = Normal h \/
  completion (LocalBackgroundHandle.terminate child h w)
  = Normal (LocalBackgroundHandle.setTerminated h).
Proof. exec_terminate; auto. Qed.

(** The first part of [terminate] either returns, or waits for the timer
    with the handle as it was: not terminated. *)
Lemma terminate_begin_cases {W : Type} (child : LocalBackgroundHandle.Process W)
    (h : LocalBackgroundHandle.t) (w : W) :
  let r := LocalBackgroundHandle.terminate_begin child h w in
  (LocalBackgroundHandle.terminated h = true /\ r = (Normal (h, None), w, [])) \/
  (LocalBackgroundHandle.terminated h = false /\
   completion r = Normal (LocalBackgroundHandle.setTerminated h, None)) \/
  (LocalBackgroundHandle.terminated h = false /\
   exists p,
     LocalBackgroundHandle.pid child w = Some p /\
     completion r = Normal (h, Some (- p)%Z) /\
     LocalBackgroundHandle.actions (events r)
     = [LocalBackgroundHandle.EvKill (- p) LocalBackgroundHandle.SIGTERM (Normal tt);
        LocalBackgroundHandle.EvSetTimeout 2000]).
Proof.
  cbv zeta. exec_terminate; auto.
  right. right. split; [done |]. eexists. split; [done |].
  destruct value. by split.
Qed.

(** C9, as the code has it: [terminate] never throws and leaves the handle
    terminated; on a terminated handle it does nothing, so a second call
    made after the first has completed is a no-op, whatever was called on
    the handle in between; an error of [process.kill] (the process is gone
    already) is swallowed.  A first call on a process with a pid sends
    SIGTERM to the process group [-pid], then, unless that signal failed,
    waits 2000 ms, checks [isRunning] and sends SIGKILL to the same group
    exactly when the process is still running.  The flag is set when the
    call ends: while a call waits for its timer the handle is not
    terminated, and a call that begins then signals the group again.  No
    part of a call throws, and the last part sets the flag. *)
Theorem terminate_idempotent_and_safe {W : Type}
    (child : LocalBackgroundHandle.Process W)
    (h : LocalBackgroundHandle.t) (w : W) :
  let r := LocalBackgroundHandle.terminate child h w in
  (exists h', completion r = Normal h' /\
              LocalBackgroundHandle.terminated h' = true) /\
  (LocalBackgroundHandle.terminated h = true -> r = (Normal h, w, [])) /\
  (forall h', completion r = Normal h' ->
     forall (between : list LocalBackgroundHandle.Call) (w' : W),
       let h'' := fst (LocalBackgroundHandle.runCalls between h') in
       LocalBackgroundHandle.terminate child h'' w' = (Normal h'', w', [])) /\
  (LocalBackgroundHandle.terminated h = false ->
   LocalBackgroundHandle.pid child w = None ->
   events r = []) /\
  (LocalBackgroundHandle.terminated h = false ->
   forall p, LocalBackgroundHandle.pid child w = Some p ->
   let pgid := (- p)%Z in
   let sigterm := LocalBackgroundHandle.kill child pgid LocalBackgroundHandle.SIGTERM w in
   let w2 := LocalBackgroundHandle.elapse child 2000 (snd sigterm) in
   let running :=
     match LocalBackgroundHandle.childExitCode child w2,
           LocalBackgroundHandle.childSignalCode child w2 with
     | None, None => true
     | _, _ => false
     end in
   LocalBackgroundHandle.actions (events r)
   = LocalBackgroundHandle.EvKill pgid LocalBackgroundHandle.SIGTERM (fst sigterm)
     :: match fst sigterm with
        | Throw _ => []
        | Normal _ =>
            LocalBackgroundHandle.EvSetTimeout 2000
            :: LocalBackgroundHandle.EvIsRunning running
            :: (if running
                then [LocalBackgroundHandle.EvKill pgid LocalBackgroundHandle.SIGKILL
                        (fst (LocalBackgroundHandle.kill child pgid
                                LocalBackgroundHandle.SIGKILL w2))]
                else [])
        end) /\
  (forall waiting pgid,
     completion (LocalBackgroundHandle.terminate_begin child h w)
     = Normal (waiting, Some pgid) ->
     waiting = h /\ LocalBackgroundHandle.terminated waiting = false /\
     exists p,
       LocalBackgroundHandle.pid child w = Some p /\ pgid = (- p)%Z /\
       LocalBackgroundHandle.actions
         (events (LocalBackgroundHandle.terminate_begin child h w))
       = [LocalBackgroundHandle.EvKill pgid LocalBackgroundHandle.SIGTERM (Normal tt);
          LocalBackgroundHandle.EvSetTimeout 2000]) /\
  (exists begun,
     completion (LocalBackgroundHandle.terminate_begin child h w) = Normal begun) /\
  (forall pgid running,
     completion (LocalBackgroundHandle.terminate_finish child pgid running h w)
     = Normal (LocalBackgroundHandle.setTerminated h)).
Proof.
  cbv zeta. split; [| split; [| split; [| split; [| split; [| split; [| split]]]]]].
  - apply terminate_returns_terminated.
  - apply terminate_on_terminated.
  - intros h' Hh' between w'.
    destruct (terminate_returns_terminated child h w) as (h'' & Hc & Ht).
    rewrite Hh' in Hc. injection Hc as <-.
    apply terminate_on_terminated. by rewrite runCalls_terminated.
  - intros Ht Hp. unfold_terminate. by rewrite Ht, Hp.
  - intros Ht p Hp. unfold_terminate. rewrite Ht, Hp.
    exec_terminate; simpl; done.
  - intros waiting pgid Hbegin.
    destruct (terminate_begin_cases child h w)
      as [[_ Hr] | [[_ Hr] | [Ht (p & Hp & Hr & Hev)]]].
    + rewrite Hr in Hbegin. discriminate.
    + rewrite Hr in Hbegin. discriminate.
    + rewrite Hr in Hbegin. injection Hbegin as <- <-.
      split; [done |]. split; [done |]. by exists p.
  - exec_terminate; eauto.
  - intros pgid running. by exec_terminate.
Qed.

(** C9, counterexample: a second call of [terminate] made while the first
    one waits for its timer is not a no-op.  The first call has signalled
    the group and left the handle as it was; the second call finds it not
    terminated and sends SIGTERM to the group again. *)
Lemma overlapping_terminate_signals_again :
  let child := Fixture.process {| Fixture.gone := false; Fixture.stubborn := true |} in
  let first := LocalBackgroundHandle.terminate_begin child
                 LocalBackgroundHandle.new false in
  let second := LocalBackgroundHandle.terminate_begin child
                  LocalBackgroundHandle.new (finalWorld first) in
  completion first = Normal (LocalBackgroundHandle.new, Some (-4242)%Z) /\
  LocalBackgroundHandle.actions (events first)
  = [LocalBackgroundHandle.EvKill (-4242) LocalBackgroundHandle.SIGTERM (Normal tt);
     LocalBackgroundHandle.EvSetTimeout 2000] /\
  LocalBackgroundHandle.actions (events second)
  = [LocalBackgroundHandle.EvKill (-4242) LocalBackgroundHandle.SIGTERM (Normal tt);
     LocalBackgroundHandle.EvSetTimeout 2000].
Proof. repeat split. Qed.

Lemma terminate_idempotent_and_safe_witness :
  let child := Fixture.process {| Fixture.gone := false; Fixture.stubborn := true |} in
  let r := LocalBackgroundHandle.terminate child LocalBackgroundHandle.new false in
  LocalBackgroundHandle.terminated LocalBackgroundHandle.new = false /\
  LocalBackgroundHandle.pid child false = Some 4242%Z /\
  LocalBackgroundHandle.actions (events r)
  = [LocalBackgroundHandle.EvKill (-4242) LocalBackgroundHandle.SIGTERM (Normal tt);
     LocalBackgroundHandle.EvSetTimeout 2000;
     LocalBackgroundHandle.EvIsRunning true;
     LocalBackgroundHandle.EvKill (-4242) LocalBackgroundHandle.SIGKILL (Normal tt)].
Proof.
  cbv zeta. split; [reflexivity |]. split; [reflexivity |].
  exact (proj1 (proj2 (proj2 (proj2 (proj2
           (terminate_idempotent_and_safe
              (Fixture.process {| Fixture.gone := false; Fixture.stubborn := true |})
              LocalBackgroundHandle.new false)))))
         eq_refl 4242%Z eq_refl).
Defined.

(** Signalling a process that is gone fails; the error is swallowed and the
    handle ends terminated. *)
Example terminate_on_exited_process :
  let child := Fixture.process {| Fixture.gone := true; Fixture.stubborn := false |} in
  let r := LocalBackgroundHandle.terminate child LocalBackgroundHandle.new false in
  completion r = Normal (LocalBackgroundHandle.setTerminated LocalBackgroundHandle.new) /\
  LocalBackgroundHandle.actions (events r)
  = [LocalBackgroundHandle.EvKill (-4242) LocalBackgroundHandle.SIGTERM
       (Throw (ErrorObject "kill ESRCH"))].
Proof. split; reflexivity. Qed.


(** ** Sample runs of the script runner *)

Ltac find_event := vm_compute; repeat (first [left; reflexivity | right]).

(** A script that is a symlink to a file outside the scripts directory is
    rejected once resolved, before anything is executed. *)
Example symlink_outside_scripts_dir_rejected :
  ScriptRunner.runWorkspaceScript (Fixture.host Fixture.escaping)
    "/ws" "build" [] ScriptRunner.noOptions tt
  = (Normal (Err "Invalid script name: build. Script path escapes scripts directory."),
     tt,
     [ScriptRunner.EvResolvePath "/ws/.mux/scripts/build" (Normal "/etc/passwd");
      ScriptRunner.EvStat "/etc/passwd" (Normal {| ScriptRunner.isDirectory := false |});
      ScriptRunner.EvResolvePath "/ws/.mux/scripts" (Normal "/ws/.mux/scripts");
      ScriptRunner.EvNormalizePath "/etc/passwd" "/ws" (Normal "/etc/passwd");
      ScriptRunner.EvNormalizePath "/ws/.mux/scripts" "/ws" (Normal "/ws/.mux/scripts")]).
Proof. vm_compute. reflexivity. Qed.


(** C4, counterexample: a persistent temp root was supplied, the policy is
    [tmpfile] and the tool failed with an error text that contains
    OUTPUT OVERFLOW, yet the temp directory is removed: the code looks for
    the marker with its opening bracket and dash. *)
Lemma cleanup_runs_for_unbracketed_overflow_text :
  let error := "OUTPUT OVERFLOW: too much output" in
  let toolResult := ScriptRunner.BashFailure None error 1 in
  let r := ScriptRunner.runWorkspaceScript
             (Fixture.host (Fixture.persistent (Normal toolResult)))
             "/ws" "build" [] Fixture.tmpfileOptions tt in
  ScriptRunner.persistentTempDir Fixture.tmpfileOptions
  = Some "/home/u/.mux-tmp/tok/" /\
  ScriptRunner.overflowPolicy Fixture.tmpfileOptions = Some ScriptRunner.tmpfile /\
  Js.includes error "OUTPUT OVERFLOW" = true /\
  completion r
  = Normal (Ok {| ScriptRunner.exitCode := 1; ScriptRunner.stdout := EmptyString;
                  ScriptRunner.stderr := error;
                  ScriptRunner.toolResult := toolResult |}) /\
  ScriptRunner.cleanups (events r)
  = ["rm -rf " +:+ String dquote "/home/u/.mux-tmp/tok/script-Xa3"
       +:+ String dquote EmptyString].
Proof. vm_compute. repeat split. Qed.

Lemma temp_dir_cleanup_policy_witness :
  let toolResult :=
    ScriptRunner.BashFailure None
      "[OUTPUT OVERFLOW - exceeds limits] saved to /home/u/.mux-tmp/tok/script-Xa3/bash-1.txt"
      1 in
  let r := ScriptRunner.runWorkspaceScript
             (Fixture.host (Fixture.persistent (Normal toolResult)))
             "/ws" "build" [] Fixture.tmpfileOptions tt in
  let cfg := Fixture.toolConfig "/home/u/.mux-tmp/tok/script-Xa3" ScriptRunner.tmpfile in
  let input := Fixture.toolInput "'/ws/.mux/scripts/build'" in
  In (ScriptRunner.EvBashExecute cfg input Fixture.toolCall (Normal toolResult))
     (events r) /\
  ScriptRunner.cleanups (events r) = [].
Proof.
  cbv zeta.
  match goal with |- ?H /\ _ => assert (Hin : H) by find_event end.
  split; [exact Hin |].
  exact (proj1 (proj2 (temp_dir_cleanup_policy _ _ _ _ _ _ _ _ _ _ Hin))).
Defined.


(** C6, counterexample: the replacement for a single quote has four
    characters, not five; no sequence of five characters describes what
    the code builds. *)
Lemma quote_replacement_has_four_characters :
  ScriptRunner.escapeSingleQuotes (String squote EmptyString)
  = String squote (String backslash (String squote (String squote EmptyString))) /\
  String.length (ScriptRunner.escapeSingleQuotes (String squote EmptyString)) = 4 /\
  ~ (exists replacement,
       String.length replacement = 5 /\
       forall s,
         ScriptRunner.singleQuoted s
         = String squote (Js.replaceAllChar squote replacement s)
           +:+ String squote EmptyString).
Proof.
  split; [reflexivity |]. split; [reflexivity |].
  intros (replacement & Hlen & Heq).
  specialize (Heq (String squote EmptyString)).
  apply (f_equal String.length) in Heq.
  change (ScriptRunner.singleQuoted (String squote EmptyString))
    with (String squote
            (String squote (String backslash (String squote (String squote EmptyString)))
             +:+ String squote EmptyString)) in Heq.
  change (Js.replaceAllChar squote replacement (String squote EmptyString))
    with (replacement +:+ EmptyString) in Heq.
  rewrite append_nil_r in Heq. simpl in Heq.
  rewrite length_append in Heq. simpl in Heq. lia.
Qed.

Lemma command_line_quotes_every_segment_witness :
  let r := ScriptRunner.runWorkspaceScript
             (Fixture.host (Fixture.plain (Normal (ScriptRunner.BashSuccess "done" 0))))
             "/ws" "build" ["a b"; "it's"] ScriptRunner.noOptions tt in
  let cfg := Fixture.toolConfig "/tmp/tmp.Xa3" ScriptRunner.truncate in
  let command := "'/ws/.mux/scripts/build' 'a b' 'it'\''s'" in
  In (ScriptRunner.EvBashExecute cfg (Fixture.toolInput command) Fixture.toolCall
        (Normal (ScriptRunner.BashSuccess "done" 0)))
     (events r) /\
  exists lookups p d np nd st post,
    events r
    = lookups ++ ScriptRunner.EvNormalizePath p "/ws" (Normal np)
        :: ScriptRunner.EvNormalizePath d "/ws" (Normal nd)
        :: ScriptRunner.EvStat p (Normal st) :: post /\
    forallb ScriptRunner.isLookup lookups = true /\
    ScriptRunner.isDirectory st = false /\
    ((In (ScriptRunner.EvResolvePath "/ws/.mux/scripts/build" (Normal p)) lookups /\
      In (ScriptRunner.EvResolvePath "/ws/.mux/scripts" (Normal d)) lookups) \/
     (In (ScriptRunner.EvResolvePath "/ws/.cmux/scripts/build" (Normal p)) lookups /\
      In (ScriptRunner.EvResolvePath "/ws/.cmux/scripts" (Normal d)) lookups)) /\
    command
    = Js.join " " (map ScriptRunner.singleQuoted (p :: ["a b"; "it's"])) /\
    (forall p' args',
       command = Js.join " " (map ScriptRunner.singleQuoted (p' :: args')) ->
       p' = p /\ args' = ["a b"; "it's"]).
Proof.
  cbv zeta.
  match goal with |- ?H /\ _ => assert (Hin : H) by find_event end.
  split; [exact Hin |].
  exact (command_line_quotes_every_segment _ _ _ _ _ _ _ _ _ _ Hin).
Defined.

Lemma resolved_script_path_contained_or_rejected_witness :
  let r := ScriptRunner.runWorkspaceScript (Fixture.host Fixture.escaping)
             "/ws" "build" [] ScriptRunner.noOptions tt in
  ScriptRunner.normalizedPaths (events r) = ["/etc/passwd"; "/ws/.mux/scripts"] /\
  Js.startsWith "/etc/passwd"
    ("/ws/.mux/scripts" +:+ ScriptRunner.separatorOf "/ws/.mux/scripts") = false /\
  completion r = Normal (Err (ScriptRunner.pathEscapeError "build")) /\
  existsb ScriptRunner.isExecution (events r) = false.
Proof.
  cbv zeta.
  assert (Hn : ScriptRunner.normalizedPaths
                 (events (ScriptRunner.runWorkspaceScript
                            (Fixture.host Fixture.escaping)
                            "/ws" "build" [] ScriptRunner.noOptions tt))
               = ["/etc/passwd"; "/ws/.mux/scripts"])
    by (vm_compute; reflexivity).
  assert (Hs : Js.startsWith "/etc/passwd"
                 ("/ws/.mux/scripts" +:+ ScriptRunner.separatorOf "/ws/.mux/scripts")
               = false)
    by (vm_compute; reflexivity).
  split; [exact Hn |]. split; [exact Hs |].
  exact (proj2 (resolved_script_path_contained_or_rejected
                  (Fixture.host Fixture.escaping)
                  "/ws" "build" [] ScriptRunner.noOptions tt) _ _ Hn Hs).
Defined.

Lemma invalid_script_name_rejected_before_io_witness :
  occursIn "/" "../deploy" /\
  ScriptRunner.runWorkspaceScript
    (Fixture.host (Fixture.plain (Normal (ScriptRunner.BashSuccess "done" 0))))
    "/ws" "../deploy" [] ScriptRunner.noOptions tt
  = (Normal (Err (ScriptRunner.invalidNameError "../deploy")), tt, []).
Proof.
  assert (Hocc : occursIn "/" "../deploy") by (by exists "..", "deploy").
  split; [exact Hocc |].
  exact (proj1 (invalid_script_name_rejected_before_io
                  (Fixture.host (Fixture.plain (Normal (ScriptRunner.BashSuccess "done" 0))))
                  "/ws" "../deploy" [] ScriptRunner.noOptions tt)
               (or_introl Hocc)).
Defined.


Lemma engine_result_is_returned_as_ok_witness :
  let toolResult := ScriptRunner.BashFailure (Some "partial") "exit code 2" 2 in
  let r := ScriptRunner.runWorkspaceScript
             (Fixture.host (Fixture.plain (Normal toolResult)))
             "/ws" "build" [] ScriptRunner.noOptions tt in
  let cfg := Fixture.toolConfig "/tmp/tmp.Xa3" ScriptRunner.truncate in
  let input := Fixture.toolInput "'/ws/.mux/scripts/build'" in
  In (ScriptRunner.EvBashExecute cfg input Fixture.toolCall (Normal toolResult))
     (events r) /\
  exists res,
    completion r = Normal (Ok res) /\
    ScriptRunner.toolResult res = toolResult /\
    ScriptRunner.exitCode res = 2%Z /\
    (forall output error code,
       toolResult = ScriptRunner.BashFailure output error code ->
       ScriptRunner.stderr res = error).
Proof.
  cbv zeta.
  match goal with |- ?H /\ _ => assert (Hin : H) by find_event end.
  split; [exact Hin |].
  exact (proj1 (engine_result_is_returned_as_ok _ _ _ _ _ _) _ _ _ _ Hin).
Defined.

(** * Further properties of the code *)

(** ** CircularBuffer: clearing, size queries and the sliding window *)

Lemma represents_clear {T : Type} C (b : CircularBuffer.t T) (l : list T) :
  represents C b l -> represents C (CircularBuffer.clear b) [].
Proof.
  intros (Hcap & Hlen & _). unfold represents, CircularBuffer.clear; simpl.
  repeat split; try done; try lia.
  intros HC. symmetry. apply Nat.mod_small. lia.
Qed.

Lemma represents_pushed {T : Type} C (xs : list T) :
  1 <= C ->
  represents C (CircularBuffer.pushAll xs (CircularBuffer.new C))
    (drop (List.length xs - C) xs).
Proof.
  intros HC. rewrite <- retain_all_last by done.
  apply represents_pushAll; [done | apply represents_new].
Qed.

(** X1: [clear] empties the buffer, and a cleared buffer behaves as a new
    one: the items it held before, which stay in the backing array, never
    show up again. *)
Theorem buffer_clear_then_reuse (T : Type) (C : nat) (old xs : list T) :
  1 <= C ->
  let b := CircularBuffer.clear
             (CircularBuffer.pushAll old (CircularBuffer.new C)) in
  CircularBuffer.toArray b = [] /\
  CircularBuffer.isEmpty b = true /\
  CircularBuffer.length b = 0 /\
  CircularBuffer.toArray (CircularBuffer.pushAll xs b)
  = CircularBuffer.toArray (CircularBuffer.pushAll xs (CircularBuffer.new C)).
Proof.
  intros HC b. repeat split; try reflexivity.
  assert (Hb : represents C b []).
  { eapply represents_clear. by apply represents_pushed. }
  rewrite (toArray_represents C _ _ HC (represents_pushAll C xs b [] HC Hb)).
  by rewrite (toArray_represents C _ _ HC
                (represents_pushAll C xs _ [] HC (represents_new C))).
Qed.

Lemma buffer_clear_then_reuse_witness :
  let b := CircularBuffer.clear
             (CircularBuffer.pushAll [1; 2; 3; 4] (CircularBuffer.new 3)) in
  1 <= 3 /\
  CircularBuffer.toArray b = [] /\
  CircularBuffer.toArray (CircularBuffer.pushAll [7; 8] b) = [Some 7; Some 8].
Proof.
  cbv zeta. split; [lia |].
  pose proof (buffer_clear_then_reuse nat 3 [1; 2; 3; 4] [7; 8] ltac:(lia))
    as (H1 & _ & _ & H4).
  split; [exact H1 | exact H4].
Defined.

(** X2: after [n] pushes into a new buffer of capacity [C >= 1] the backing
    array still has [C] slots, [length] is the smaller of [n] and [C],
    [isEmpty] holds exactly when nothing was pushed and [isFull] exactly
    when at least [C] items were. *)
Theorem buffer_size_queries (T : Type) (C : nat) (xs : list T) :
  1 <= C ->
  let b := CircularBuffer.pushAll xs (CircularBuffer.new C) in
  List.length (CircularBuffer.buffer b) = C /\
  CircularBuffer.length b = Nat.min (List.length xs) C /\
  (CircularBuffer.isEmpty b = true <-> xs = []) /\
  (CircularBuffer.isFull b = true <-> C <= List.length xs).
Proof.
  intros HC b.
  destruct (represents_pushed C xs HC) as (Hcap & Hlen & Hsz & _).
  fold b in Hcap, Hlen, Hsz. rewrite length_drop in Hsz.
  unfold CircularBuffer.length, CircularBuffer.isEmpty, CircularBuffer.isFull.
  rewrite Hcap, Hsz. split; [done |]. split; [lia |]. split.
  - rewrite Nat.eqb_eq. destruct xs; simpl in *; [done |].
    split; [lia | done].
  - rewrite Nat.eqb_eq. lia.
Qed.

Lemma buffer_size_queries_witness :
  let b := CircularBuffer.pushAll [1; 2] (CircularBuffer.new 3) in
  1 <= 3 /\
  List.length (CircularBuffer.buffer b) = 3 /\
  CircularBuffer.length b = 2 /\
  (CircularBuffer.isEmpty b = true <-> [1; 2] = @nil nat) /\
  (CircularBuffer.isFull b = true <-> 3 <= 2).
Proof.
  cbv zeta. split; [lia |].
  exact (buffer_size_queries nat 3 [1; 2] ltac:(lia)).
Defined.

(** X3: one more [push] slides the window: the item is appended to what
    [toArray] gave before, and when the buffer was full the oldest item,
    and only that one, is dropped. *)
Theorem buffer_push_slides_window (T : Type) (C : nat) (xs : list T) (x : T) :
  1 <= C ->
  let b := CircularBuffer.pushAll xs (CircularBuffer.new C) in
  CircularBuffer.toArray (CircularBuffer.push x b)
  = (if CircularBuffer.isFull b
     then drop 1 (CircularBuffer.toArray b)
     else CircularBuffer.toArray b) ++ [Some x].
Proof.
  intros HC b.
  pose proof (represents_pushed C xs HC) as Hrep. fold b in Hrep.
  rewrite (toArray_represents C _ _ HC (represents_push C b _ x HC Hrep)).
  rewrite (toArray_represents C b _ HC Hrep).
  destruct Hrep as (Hcap & _ & Hsz & Hle & _).
  unfold CircularBuffer.isFull, retain. rewrite Hcap, Hsz.
  destruct (Nat.ltb_spec (List.length (drop (List.length xs - C) xs)) C),
    (Nat.eqb_spec (List.length (drop (List.length xs - C) xs)) C);
    try lia.
  - by rewrite fmap_app.
  - by rewrite fmap_app, fmap_drop.
Qed.

Lemma buffer_push_slides_window_witness :
  1 <= 3 /\
  CircularBuffer.toArray
    (CircularBuffer.push 4 (CircularBuffer.pushAll [1; 2; 3] (CircularBuffer.new 3)))
  = [Some 2; Some 3; Some 4].
Proof.
  split; [lia |].
  exact (buffer_push_slides_window nat 3 [1; 2; 3] 4 ltac:(lia)).
Defined.

(** ** The background handle: conservation and independence of channels *)

Section HandleMoreFacts.
Import LocalBackgroundHandle HandleChannels.









End HandleMoreFacts.



(** ** The background handle: independence of the channels, terminate *)

Section HandleIndependence.
Import LocalBackgroundHandle HandleChannels.

Ltac step_eq :=
  rewrite ?step_OnStdout, ?step_OnStderr, ?step_OnExit,
    ?step_EmitStdout, ?step_EmitStderr, ?step_EmitExit;
  cbv zeta.

Lemma step_stdout_relevant (c : Call) (h h' : t) :
  isStdoutCall c = true ->
  stdoutCallback h = stdoutCallback h' -> pendingStdout h = pendingStdout h' ->
  stdoutCallback (fst (step c h)) = stdoutCallback (fst (step c h')) /\
  pendingStdout (fst (step c h)) = pendingStdout (fst (step c h')) /\
  stdoutDelivered (snd (step c h)) = stdoutDelivered (snd (step c h')).
Proof.
  intros Hc Hcb Hp. destruct c; try discriminate; step_eq;
    rewrite <- ?Hcb, <- ?Hp;
    destruct (stdoutCallback h) eqn:E1; destruct (pendingStdout h) eqn:E2; simpl;
    rewrite ?E1, ?E2; repeat split; congruence.
Qed.

Lemma step_stdout_irrelevant (c : Call) (h : t) :
  isStdoutCall c = false ->
  stdoutCallback (fst (step c h)) = stdoutCallback h /\
  pendingStdout (fst (step c h)) = pendingStdout h /\
  stdoutDelivered (snd (step c h)) = [].
Proof.
  intros Hc. destruct c; try discriminate; step_eq;
    destruct (stdoutCallback h) eqn:?; destruct (stderrCallback h) eqn:?;
    destruct (exitCallback h) eqn:?; destruct (pendingExitCode h) eqn:?; simpl;
    rewrite ?(proj1 (flush_stdout _ _ _ _)), ?(proj2 (flush_stdout _ _ _ _)),
      ?(proj1 (flush_stderr _ _ _ _)), ?(proj2 (flush_stderr _ _ _ _));
    done.
Qed.

Lemma stdout_independent (cs : list Call) (h h' : t) :
  stdoutCallback h = stdoutCallback h' -> pendingStdout h = pendingStdout h' ->
  stdoutDelivered (snd (runCalls cs h))
  = stdoutDelivered (snd (runCalls (List.filter isStdoutCall cs) h')).
Proof.
  revert h h'. induction cs as [| c cs IH]; intros h h' Hcb Hp; [done |].
  cbn [runCalls List.filter]. destruct (isStdoutCall c) eqn:Hc; cbn [runCalls].
  - destruct (step_stdout_relevant c h h' Hc Hcb Hp) as (H1 & H2 & H3).
    specialize (IH _ _ H1 H2).
    destruct (step c h) as [h1 d1], (step c h') as [h1' d1']. simpl in *.
    destruct (runCalls cs h1), (runCalls (List.filter isStdoutCall cs) h1').
    simpl in *. rewrite !stdoutDelivered_app. congruence.
  - destruct (step_stdout_irrelevant c h Hc) as (H1 & H2 & H3).
    assert (Ha : stdoutCallback (fst (step c h)) = stdoutCallback h') by congruence.
    assert (Hb : pendingStdout (fst (step c h)) = pendingStdout h') by congruence.
    specialize (IH _ _ Ha Hb).
    destruct (step c h) as [h1 d1]. simpl in *.
    destruct (runCalls cs h1). simpl in *.
    rewrite stdoutDelivered_app, H3. done.
Qed.

Lemma step_stderr_relevant (c : Call) (h h' : t) :
  isStderrCall c = true ->
  stderrCallback h = stderrCallback h' -> pendingStderr h = pendingStderr h' ->
  stderrCallback (fst (step c h)) = stderrCallback (fst (step c h')) /\
  pendingStderr (fst (step c h)) = pendingStderr (fst (step c h')) /\
  stderrDelivered (snd (step c h)) = stderrDelivered (snd (step c h')).
Proof.
  intros Hc Hcb Hp. destruct c; try discriminate; step_eq;
    rewrite <- ?Hcb, <- ?Hp;
    destruct (stderrCallback h) eqn:E1; destruct (pendingStderr h) eqn:E2; simpl;
    rewrite ?E1, ?E2; repeat split; congruence.
Qed.

Lemma step_stderr_irrelevant (c : Call) (h : t) :
  isStderrCall c = false ->
  stderrCallback (fst (step c h)) = stderrCallback h /\
  pendingStderr (fst (step c h)) = pendingStderr h /\
  stderrDelivered (snd (step c h)) = [].
Proof.
  intros Hc. destruct c; try discriminate; step_eq;
    destruct (stdoutCallback h) eqn:?; destruct (stderrCallback h) eqn:?;
    destruct (exitCallback h) eqn:?; destruct (pendingExitCode h) eqn:?; simpl;
    rewrite ?(proj1 (flush_stdout _ _ _ _)), ?(proj2 (flush_stdout _ _ _ _)),
      ?(proj1 (flush_stderr _ _ _ _)), ?(proj2 (flush_stderr _ _ _ _));
    done.
Qed.

Lemma stderr_independent (cs : list Call) (h h' : t) :
  stderrCallback h = stderrCallback h' -> pendingStderr h = pendingStderr h' ->
  stderrDelivered (snd (runCalls cs h))
  = stderrDelivered (snd (runCalls (List.filter isStderrCall cs) h')).
Proof.
  revert h h'. induction cs as [| c cs IH]; intros h h' Hcb Hp; [done |].
  cbn [runCalls List.filter]. destruct (isStderrCall c) eqn:Hc; cbn [runCalls].
  - destruct (step_stderr_relevant c h h' Hc Hcb Hp) as (H1 & H2 & H3).
    specialize (IH _ _ H1 H2).
    destruct (step c h) as [h1 d1], (step c h') as [h1' d1']. simpl in *.
    destruct (runCalls cs h1), (runCalls (List.filter isStderrCall cs) h1').
    simpl in *. rewrite !stderrDelivered_app. congruence.
  - destruct (step_stderr_irrelevant c h Hc) as (H1 & H2 & H3).
    assert (Ha : stderrCallback (fst (step c h)) = stderrCallback h') by congruence.
    assert (Hb : pendingStderr (fst (step c h)) = pendingStderr h') by congruence.
    specialize (IH _ _ Ha Hb).
    destruct (step c h) as [h1 d1]. simpl in *.
    destruct (runCalls cs h1). simpl in *.
    rewrite stderrDelivered_app, H3. done.
Qed.

Lemma step_exit_relevant (c : Call) (h h' : t) :
  isExitCall c = true ->
  exitCallback h = exitCallback h' -> pendingExitCode h = pendingExitCode h' ->
  exitCallback (fst (step c h)) = exitCallback (fst (step c h')) /\
  pendingExitCode (fst (step c h)) = pendingExitCode (fst (step c h')) /\
  exitDelivered (snd (step c h)) = exitDelivered (snd (step c h')).
Proof.
  intros Hc Hcb Hp. destruct c; try discriminate; step_eq;
    rewrite <- ?Hcb, <- ?Hp;
    destruct (exitCallback h) eqn:E1; destruct (pendingExitCode h) eqn:E2; simpl;
    rewrite ?E1, ?E2; repeat split; congruence.
Qed.

Lemma step_exit_irrelevant (c : Call) (h : t) :
  isExitCall c = false ->
  exitCallback (fst (step c h)) = exitCallback h /\
  pendingExitCode (fst (step c h)) = pendingExitCode h /\
  exitDelivered (snd (step c h)) = [].
Proof.
  intros Hc. destruct c; try discriminate; step_eq;
    destruct (stdoutCallback h) eqn:?; destruct (stderrCallback h) eqn:?;
    destruct (exitCallback h) eqn:?; destruct (pendingExitCode h) eqn:?; simpl;
    rewrite ?(proj1 (flush_stdout _ _ _ _)), ?(proj2 (flush_stdout _ _ _ _)),
      ?(proj1 (flush_stderr _ _ _ _)), ?(proj2 (flush_stderr _ _ _ _));
    done.
Qed.

Lemma exit_independent (cs : list Call) (h h' : t) :
  exitCallback h = exitCallback h' -> pendingExitCode h = pendingExitCode h' ->
  exitDelivered (snd (runCalls cs h))
  = exitDelivered (snd (runCalls (List.filter isExitCall cs) h')).
Proof.
  revert h h'. induction cs as [| c cs IH]; intros h h' Hcb Hp; [done |].
  cbn [runCalls List.filter]. destruct (isExitCall c) eqn:Hc; cbn [runCalls].
  - destruct (step_exit_relevant c h h' Hc Hcb Hp) as (H1 & H2 & H3).
    specialize (IH _ _ H1 H2).
    destruct (step c h) as [h1 d1], (step c h') as [h1' d1']. simpl in *.
    destruct (runCalls cs h1), (runCalls (List.filter isExitCall cs) h1').
    simpl in *. rewrite !exitDelivered_app. congruence.
  - destruct (step_exit_irrelevant c h Hc) as (H1 & H2 & H3).
    assert (Ha : exitCallback (fst (step c h)) = exitCallback h') by congruence.
    assert (Hb : pendingExitCode (fst (step c h)) = pendingExitCode h') by congruence.
    specialize (IH _ _ Ha Hb).
    destruct (step c h) as [h1 d1]. simpl in *.
    destruct (runCalls cs h1). simpl in *.
    rewrite exitDelivered_app, H3. done.
Qed.

End HandleIndependence.

(** X5: the three channels of a handle do not interfere.  What is
    delivered on stdout is what the stdout registrations and stdout lines
    alone would have delivered, whatever was registered or emitted on
    stderr and exit in between and however the calls of callbacks ended;
    likewise for stderr and for exit. *)
Theorem channels_do_not_interfere (cs : list LocalBackgroundHandle.Call) :
  LocalBackgroundHandle.stdoutDelivered (LocalBackgroundHandle.deliveries cs)
  = LocalBackgroundHandle.stdoutDelivered
      (LocalBackgroundHandle.deliveries (List.filter HandleChannels.isStdoutCall cs)) /\
  LocalBackgroundHandle.stderrDelivered (LocalBackgroundHandle.deliveries cs)
  = LocalBackgroundHandle.stderrDelivered
      (LocalBackgroundHandle.deliveries (List.filter HandleChannels.isStderrCall cs)) /\
  LocalBackgroundHandle.exitDelivered (LocalBackgroundHandle.deliveries cs)
  = LocalBackgroundHandle.exitDelivered
      (LocalBackgroundHandle.deliveries (List.filter HandleChannels.isExitCall cs)).
Proof.
  unfold LocalBackgroundHandle.deliveries. split; [| split].
  - by apply stdout_independent.
  - by apply stderr_independent.
  - by apply exit_independent.
Qed.



(** X7: [terminate] touches nothing of the handle but its [terminated]
    flag: the registered callbacks and the pending stdout lines, stderr
    lines and exit code are as before, on every path through it.  So the
    calls that follow it deliver exactly what they would have delivered
    without it: terminating a handle loses no buffered event. *)
Theorem terminate_keeps_callbacks_and_buffers {W : Type}
    (child : LocalBackgroundHandle.Process W)
    (h : LocalBackgroundHandle.t) (w : W)
    (cs : list LocalBackgroundHandle.Call) :
  exists h',
    completion (LocalBackgroundHandle.terminate child h w) = Normal h' /\
    LocalBackgroundHandle.stdoutCallback h' = LocalBackgroundHandle.stdoutCallback h /\
    LocalBackgroundHandle.stderrCallback h' = LocalBackgroundHandle.stderrCallback h /\
    LocalBackgroundHandle.exitCallback h' = LocalBackgroundHandle.exitCallback h /\
    LocalBackgroundHandle.pendingStdout h' = LocalBackgroundHandle.pendingStdout h /\
    LocalBackgroundHandle.pendingStderr h' = LocalBackgroundHandle.pendingStderr h /\
    LocalBackgroundHandle.pendingExitCode h' = LocalBackgroundHandle.pendingExitCode h /\
    snd (LocalBackgroundHandle.runCalls cs h')
    = snd (LocalBackgroundHandle.runCalls cs h).
Proof.
  destruct (terminate_result child h w) as [-> | ->].
  - by exists h.
  - exists (LocalBackgroundHandle.setTerminated h).
    repeat split. apply runCalls_setTerminated.
Qed.

(** ** The script runner: its steps *)

Section RunnerMore.
Import ScriptRunner.
Context {W : Type} (host : Host W).

Lemma truthy_false (s : string) : Js.truthy s = false -> s = EmptyString.
Proof. by destruct s. Qed.

Lemma truthy_true (s : string) : Js.truthy s = true -> s <> EmptyString.
Proof. by destruct s. Qed.

Ltac read_tests :=
  repeat match goal with
         | H : (_ =? _)%Z = true |- _ => apply Z.eqb_eq in H
         | H : (_ =? _)%Z = false |- _ => apply Z.eqb_neq in H
         | H : Js.truthy _ = true |- _ => apply truthy_true in H
         | H : Js.truthy _ = false |- _ => apply truthy_false in H
         end.

(** The event a membership hypothesis speaks of, among the events that
    follow the resolution block. *)
Ltac pick_event Hin :=
  apply in_app_or in Hin; destruct Hin as [Hin | Hin];
  [match goal with
   | Hlook : forall e, In e _ -> isLookup e = true |- _ =>
       by apply Hlook in Hin
   end |];
  cbn [In] in Hin;
  repeat (destruct Hin as [Hin | Hin]; [try discriminate Hin |]);
  try contradiction.

(** X9: the temp-dir command is run in the workspace with a timeout of 5
    and its result guards the rest of the run.  When it exits with a code
    other than 0 the run ends there with the prepare-environment error,
    which carries its stderr, or [mkdir failed] when that is empty; when it
    exits with 0 and prints only blanks the run ends there with the
    empty-directory error.  Otherwise the bash tool is called, with the
    trimmed output as its temp directory. *)
Theorem temp_dir_allocation_is_guarded ws name args opts (w : W) cmd cwd t tdr :
  let r := runWorkspaceScript host ws name args opts w in
  In (EvExecBuffered cmd cwd t (Normal tdr)) (events r) ->
  cmd = tempDirCommandOf (persistentBaseOf opts) /\ cwd = ws /\ t = 5%Z /\
  (exec_exitCode tdr <> 0%Z ->
   completion r = Normal (Err (tempDirError tdr)) /\
   last (events r) = Some (EvExecBuffered cmd cwd t (Normal tdr))) /\
  (exec_exitCode tdr = 0%Z -> Js.trim (exec_stdout tdr) = EmptyString ->
   completion r = Normal (Err emptyTempDirError) /\
   last (events r) = Some (EvExecBuffered cmd cwd t (Normal tdr))) /\
  (exec_exitCode tdr = 0%Z -> Js.trim (exec_stdout tdr) <> EmptyString ->
   exists cfg input co res,
     In (EvBashExecute cfg input co res) (events r) /\
     cfg_runtimeTempDir cfg = Js.trim (exec_stdout tdr)).
Proof.
  cbv zeta. exec_run; try use_resolution.
  all: intros Hin; try done.
  all: try (by apply Hlook in Hin).
  all: pick_event Hin.
  all: injection Hin as <- <- <- <-.
  all: read_tests.
  all: repeat split; intros; try done; try congruence.
  all: try (rewrite last_app; reflexivity).
  all: do 4 eexists;
    (split; [apply in_or_app; right; cbn [In];
             repeat (first [left; reflexivity | right]) | reflexivity]).
Qed.

(** X8: the resolved script path is checked with [stat] before anything is
    executed.  A run whose last call is a [stat] ended with the not-found
    error when the [stat] threw, and with the is-a-directory error when it
    returned: it then reported a directory.  A run that allocates a temp
    directory or calls the bash tool did so after a [stat] reported that the
    path is not a directory, and that path is the one the containment check
    normalized and the one the command line is built from. *)
Theorem script_is_checked_to_be_a_file ws name args opts (w : W) :
  let r := runWorkspaceScript host ws name args opts w in
  (forall p res, last (events r) = Some (EvStat p res) ->
     match res with
     | Throw _ => completion r = Normal (Err (notFoundError name))
     | Normal st =>
         isDirectory st = true /\
         completion r = Normal (Err (isDirectoryError name))
     end) /\
  (existsb isExecution (events r) = true ->
   exists pre p st np post,
     events r = pre ++ EvStat p (Normal st) :: post /\
     isDirectory st = false /\
     existsb isExecution pre = false /\
     In (EvNormalizePath p ws (Normal np)) pre /\
     forall cfg input co res,
       In (EvBashExecute cfg input co res) post ->
       script input = buildCommand p args).
Proof.
  cbv zeta. exec_run; try use_resolution.
  all: split.
  all: try (intros Hx; revert Hx; observe; discriminate).
  all: try (intros p res Hlast; try rewrite last_app in Hlast;
            cbn [last] in Hlast;
            first [ discriminate Hlast
                  | injection Hlast as <- <-; done
                  | destruct (Hthrow _ eq_refl) as (pre' & q & ->);
                    rewrite last_app in Hlast; discriminate Hlast ]).
  all: intros _;
    match goal with
    | |- context [EvNormalizePath ?p ?ws (Normal ?np) :: ?n2 ::
                  EvStat ?p (Normal ?st) :: ?post] =>
        eexists (_ ++ [EvNormalizePath p ws (Normal np); n2]), p, st, np, post
    end.
  all: rewrite <- app_assoc; cbn [app]; (split; [reflexivity |]).
  all: (split; [assumption |]).
  all: observe; (split; [reflexivity |]).
  all: (split; [apply in_or_app; right; left; reflexivity |]).
  all: intros cfg input co res Hin; cbn [In] in Hin;
    repeat (destruct Hin as [Hin | Hin]; [try discriminate Hin |]);
    try contradiction.
  all: by injection Hin as <- <- <- <-.
Qed.


Import RunnerTrace.

(** The events after the resolution block, sorted by step. *)
Ltac classify l :=
  lazymatch l with
  | [] => constr:((@nil Event, @nil Event, @nil Event, @nil Event, @nil Event))
  | ?e :: ?rest =>
      let r := classify rest in
      lazymatch r with
      | (?n, ?c, ?a, ?k, ?d) =>
          lazymatch e with
          | EvNormalizePath _ _ _ => constr:((e :: n, c, a, k, d))
          | EvStat _ _ => constr:((n, e :: c, a, k, d))
          | EvExecBuffered _ _ _ _ => constr:((n, c, e :: a, k, d))
          | EvBashExecute _ _ _ _ => constr:((n, c, a, e :: k, d))
          | EvExecDetached _ _ _ => constr:((n, c, a, k, e :: d))
          end
      end
  end.

Lemma lookups_forallb (t : list Event) :
  (forall e, In e t -> isLookup e = true) -> forallb isLookup t = true.
Proof. intros H. apply forallb_forall. exact H. Qed.

(** X11: the calls of a run come in the order of its steps, whatever the
    runtime answers: the lookups of the resolution, then the two
    normalizations, then the [stat] check, then the temp-dir allocation,
    then the call of the bash tool, then the cleanup.  Each of the last four
    happens at most once and only when the step before it happened; in
    particular nothing is cleaned up unless the tool was called, and the
    tool is not called without a temp directory. *)
Theorem run_steps_in_order_each_at_most_once ws name args opts (w : W) :
  let r := runWorkspaceScript host ws name args opts w in
  exists lookups norms checks allocs calls cleans,
    events r = lookups ++ norms ++ checks ++ allocs ++ calls ++ cleans /\
    forallb isLookup lookups = true /\
    forallb isNormalization norms = true /\
    forallb isStatCheck checks = true /\
    forallb isAllocation allocs = true /\
    forallb isToolCall calls = true /\
    forallb isCleanup cleans = true /\
    List.length cleans <= List.length calls /\
    List.length calls <= List.length allocs /\
    List.length allocs <= List.length checks /\
    List.length checks <= 1 /\
    2 * List.length checks <= List.length norms /\
    List.length norms <= 2.
Proof.
  cbv zeta. exec_run; try use_resolution.
  all: match goal with
       | Hlook : (forall e, In e ?l -> isLookup e = true)
         |- context [?l ++ ?rest] =>
           let r := classify rest in
           lazymatch r with
           | (?n, ?c, ?a, ?k, ?d) => exists l, n, c, a, k, d
           end
       | Hlook : (forall e, In e ?l -> isLookup e = true) |- _ =>
           exists l, [], [], [], [], []; rewrite ?app_nil_r
       | |- _ => exists [], [], [], [], [], []
       end.
  all: (split; [reflexivity |]).
  all: (split; [first [reflexivity | by apply lookups_forallb] |]).
  all: cbn; repeat split; lia.
Qed.

(** The lists of up to three events. *)
Ltac up_to_three tac :=
  first [ eexists [_]; tac | eexists [_; _]; tac | eexists [_; _; _]; tac ].
Ltac up_to_two tac :=
  first [ eexists [_]; tac | eexists [_; _]; tac ].

(** X13: the resolution starts at the canonical location.  The paths it
    returns are those of the canonical location when resolving the script,
    [stat] on it and resolving the scripts directory all returned, and then
    nothing else was consulted.  They are those of the legacy location only
    after an attempt that threw, and with the legacy script found by
    [stat].  After two attempts that threw they are the canonical ones
    again, resolved without [stat].  An exception leaves the block only
    from that last resolution, after two attempts that threw. *)
Theorem resolution_tries_canonical_then_legacy ws name (w : W) :
  let r := resolveScriptPaths host ws name w in
  let canonicalPath := getScriptPath host ws name in
  let canonicalDir := getScriptsDir host ws in
  let legacyPath := getLegacyScriptPath host ws name in
  let legacyDir := getLegacyScriptsDir host ws in
  (exists c rest, events r = EvResolvePath canonicalPath c :: rest) /\
  match completion r with
  | Normal (p, d) =>
      (exists st,
         events r = [EvResolvePath canonicalPath (Normal p);
                     EvStat p (Normal st);
                     EvResolvePath canonicalDir (Normal d)]) \/
      (exists failed st,
         failedAttempt failed = true /\
         events r = failed ++ [EvResolvePath legacyPath (Normal p);
                               EvStat p (Normal st);
                               EvResolvePath legacyDir (Normal d)]) \/
      (exists failed failed',
         failedAttempt failed = true /\ failedAttempt failed' = true /\
         events r = failed ++ failed'
                      ++ [EvResolvePath canonicalPath (Normal p);
                          EvResolvePath canonicalDir (Normal d)])
  | Throw e =>
      exists failed failed' failed'',
        failedAttempt failed = true /\ failedAttempt failed' = true /\
        failedAttempt failed'' = true /\
        events r = failed ++ failed' ++ failed'' /\
        (failed'' = [EvResolvePath canonicalPath (Throw e)] \/
         exists p, failed'' = [EvResolvePath canonicalPath (Normal p);
                               EvResolvePath canonicalDir (Throw e)])
  end.
Proof.
  cbv zeta. unfold resolveScriptPaths. exec_runner.
  all: (split; [eauto |]).
  all: first
    [ left; eexists; reflexivity
    | right; left; up_to_three ltac:(eexists; split; [| reflexivity]; reflexivity)
    | right; right;
      up_to_three ltac:(up_to_three
        ltac:(split; [| split; [| reflexivity]]; reflexivity))
    | up_to_three ltac:(up_to_three ltac:(up_to_two
        ltac:(split; [| split; [| split; [| split; [reflexivity |]]]];
              [reflexivity | reflexivity | reflexivity
              | first [left; reflexivity | right; eexists; reflexivity]]))) ].
Qed.


(** X14: [cleanupTempDir] never throws, whatever becomes of the [rm]
    command it starts.  It issues [rm -rf] on the temp directory, double
    quotes escaped, unless cleanup is to be skipped or was scheduled
    before; it leaves the skip flag as it was; and calling it again does
    nothing: the command is issued at most once. *)
Theorem cleanup_is_issued_at_most_once ws dir flags (w : W) :
  let r := cleanupTempDir host ws dir flags w in
  exists flags',
    completion r = Normal flags' /\
    events r
    = (if skipCleanup flags || cleanupScheduled flags then []
       else [EvExecDetached (rmCommand dir) ws 5]) /\
    skipCleanup flags' = skipCleanup flags /\
    forall w',
      cleanupTempDir host ws dir flags' w' = (Normal flags', w', []).
Proof.
  cbv zeta. unfold cleanupTempDir, rmCommand.
  destruct flags as [[|] [|]]; simpl.
  1-3: by eexists.
  cbv beta iota zeta delta
    [void_execBuffered bind ret callDetached completion events fst snd].
  destruct (execBuffered host _ ws 5 w) as [c w1]. cbn [app].
  by eexists.
Qed.

End RunnerMore.

Lemma temp_dir_allocation_is_guarded_witness :
  let r := ScriptRunner.runWorkspaceScript
             (AllocationFixture.host AllocationFixture.diskFull
                (Fixture.plain (Normal (ScriptRunner.BashSuccess "done" 0))))
             "/ws" "build" [] ScriptRunner.noOptions tt in
  let allocation :=
    ScriptRunner.EvExecBuffered
      "mktemp -d 2>/dev/null || mktemp -d -t 'mux-script'" "/ws" 5
      (Normal AllocationFixture.diskFull) in
  In allocation (events r) /\
  completion r
  = Normal (Err ("Failed to prepare script environment: "
                   +:+ "mktemp: failed to create directory: No space left on device")) /\
  last (events r) = Some allocation.
Proof.
  cbv zeta.
  match goal with |- ?H /\ _ => assert (Hin : H) by find_event end.
  split; [exact Hin |].
  exact (proj1 (proj2 (proj2 (proj2 (temp_dir_allocation_is_guarded _ _ _ _ _ _ _ _ _ _ Hin))))
           ltac:(discriminate)).
Defined.


(** ** The persistent temp root *)

Section PersistentBaseFacts.
Import ScriptRunner.

Lemma chars_append (s t : string) :
  list_ascii_of_string (s +:+ t)
  = list_ascii_of_string s ++ list_ascii_of_string t.
Proof. induction s; [done |]. rewrite append_cons. simpl. by f_equal. Qed.

Lemma normalizeForShell_chars (s : string) :
  list_ascii_of_string (normalizeForShell s)
  = map (fun c => if Ascii.eqb c backslash then "/"%char else c)
        (list_ascii_of_string s).
Proof.
  unfold normalizeForShell. induction s as [| a s IH]; [done |].
  simpl. rewrite chars_append, IH. by destruct (Ascii.eqb a backslash).
Qed.

Lemma occursIn_char (c : ascii) (s : string) :
  occursIn (String c EmptyString) s <-> In c (list_ascii_of_string s).
Proof.
  split.
  - intros (l & r & ->). rewrite chars_append. apply in_or_app. right.
    rewrite append_cons. by left.
  - induction s as [| a s IH]; [done |]. intros [-> | H].
    + by exists EmptyString, s.
    + destruct (IH H) as (l & r & ->). exists (String a l), r.
      by rewrite append_cons.
Qed.

Lemma stripTrailingSlashes_split (s : string) :
  exists tail,
    s = Js.stripTrailingSlashes s +:+ tail /\
    (forall c, In c (list_ascii_of_string tail) -> c = "/"%char).
Proof.
  induction s as [| a s (tail & Hs & Htail)].
  - by exists EmptyString.
  - simpl. destruct (Ascii.eqb_spec a "/") as [-> | Hne]; simpl.
    + destruct (Js.stripTrailingSlashes s) eqn:E; simpl.
      * exists (String "/" tail). rewrite append_nil_l in *. split; [congruence |].
        intros c [<- | H]; auto.
      * exists tail. rewrite !append_cons in *. split; [congruence | done].
    + exists tail. rewrite append_cons. split; [congruence | done].
Qed.

Lemma stripTrailingSlashes_end (s t : string) :
  Js.stripTrailingSlashes s <> t +:+ "/".
Proof.
  revert t. induction s as [| a s IH]; intros t; simpl.
  - destruct t; discriminate.
  - destruct (Ascii.eqb_spec a "/") as [-> | Hne]; simpl.
    + destruct (Js.stripTrailingSlashes s) eqn:E; simpl.
      * destruct t; discriminate.
      * destruct t as [| b t]; [rewrite append_nil_l; congruence |].
        rewrite append_cons. intros [= _ H2]. by apply (IH t).
    + destruct t as [| b t].
      * rewrite append_nil_l. intros [= H1 H2]. congruence.
      * rewrite append_cons. intros [= _ H2]. by apply (IH t).
Qed.

Lemma stripTrailingSlashes_empty (s : string) :
  Js.stripTrailingSlashes s = EmptyString <->
  forall c, In c (list_ascii_of_string s) -> c = "/"%char.
Proof.
  induction s as [| a s IH]; simpl; [done |].
  destruct (Ascii.eqb_spec a "/") as [-> | Hne]; simpl.
  - destruct (Js.stripTrailingSlashes s) eqn:E; simpl.
    + split; [| done]. intros _ c [<- | H]; [done |]. by apply IH.
    + split; [done |]. intros H.
      assert (String a s0 = EmptyString) by (apply IH; auto). done.
  - split; [done |]. intros H. destruct Hne. by apply H; left.
Qed.

Lemma trim_nonempty (dir : string) :
  Js.truthy dir && (0 <? String.length (Js.trim dir)) = true <->
  Js.trim dir <> EmptyString.
Proof.
  destruct dir as [| a dir]; [done |]. simpl Js.truthy. rewrite andb_true_l.
  destruct (Js.trim (String a dir)); simpl; split; done.
Qed.

Lemma not_all_slashes (l : list ascii) :
  ~ (forall c, In c l -> c = "/"%char) <->
  exists c, In c l /\ c <> "/"%char.
Proof.
  split.
  - induction l as [| a l IH]; intros H; [by destruct H |].
    destruct (Ascii.eqb_spec a "/") as [-> | Hne].
    + destruct IH as (c & Hc & Hne).
      * intros Hall. apply H. intros c [<- | Hc]; auto.
      * exists c. split; [by right | done].
    + exists a. split; [by left | done].
  - intros (c & Hc & Hne) H. auto.
Qed.

Lemma honoured_chars (t : string) :
  Js.stripTrailingSlashes (normalizeForShell t) <> EmptyString <->
  exists c, In c (list_ascii_of_string t) /\ c <> "/"%char /\ c <> backslash.
Proof.
  rewrite stripTrailingSlashes_empty, not_all_slashes, normalizeForShell_chars.
  split.
  - intros (c' & Hc' & Hne). apply in_map_iff in Hc' as (c & <- & Hc).
    exists c. destruct (Ascii.eqb_spec c backslash); by repeat split.
  - intros (c & Hc & Hne1 & Hne2).
    exists c. split; [| done]. apply in_map_iff. exists c.
    split; [| done]. by destruct (Ascii.eqb_spec c backslash).
Qed.

End PersistentBaseFacts.

(** X12: the persistent base is the persistent temp root trimmed, with
    slashes for backslashes and without its trailing slashes: it holds no
    backslash and does not end in a slash, so appending [/script-XXXXXX]
    never doubles a slash.  The root is honoured exactly when, once
    trimmed, it has a character other than slash and backslash; a root of
    blanks, slashes or backslashes only leaves the runner with the system
    temp directory. *)
Theorem persistent_root_is_normalised (opts : ScriptRunner.RunScriptOptions) :
  (forall base, ScriptRunner.persistentBaseOf opts = Some base ->
     exists dir tail,
       ScriptRunner.persistentTempDir opts = Some dir /\
       ScriptRunner.normalizeForShell (Js.trim dir) = base +:+ tail /\
       (forall c, In c (list_ascii_of_string tail) -> c = "/"%char) /\
       ~ occursIn "\" base /\
       (forall s, base <> s +:+ "/")) /\
  (ScriptRunner.persistentBaseSet (ScriptRunner.persistentBaseOf opts) = true <->
   exists dir c,
     ScriptRunner.persistentTempDir opts = Some dir /\
     In c (list_ascii_of_string (Js.trim dir)) /\
     c <> "/"%char /\ c <> backslash).
Proof.
  unfold ScriptRunner.persistentBaseOf, ScriptRunner.persistentBaseSet.
  destruct (ScriptRunner.persistentTempDir opts) as [dir |];
    [| split; [done | split; [done | by intros (? & ? & ? & _)]]].
  destruct (Js.truthy dir && (0 <? String.length (Js.trim dir))) eqn:Hne.
  - split.
    + intros base [= <-].
      destruct (stripTrailingSlashes_split
                  (ScriptRunner.normalizeForShell (Js.trim dir)))
        as (tail & Hsplit & Htail).
      exists dir, tail. repeat split; [done | done | | apply stripTrailingSlashes_end].
      change "\" with (String backslash EmptyString).
      rewrite occursIn_char. intros Hin.
      assert (Hin' : In backslash
                (list_ascii_of_string
                   (ScriptRunner.normalizeForShell (Js.trim dir)))).
      { rewrite Hsplit at 1. rewrite chars_append. apply in_or_app. by left. }
      rewrite normalizeForShell_chars in Hin'.
      apply in_map_iff in Hin' as (c & Hc & _).
      by destruct (Ascii.eqb_spec c backslash).
    + assert (Hiff : (exists dir' c,
                         Some dir = Some dir' /\
                         In c (list_ascii_of_string (Js.trim dir')) /\
                         c <> "/"%char /\ c <> backslash)
                      <-> Js.stripTrailingSlashes
                            (ScriptRunner.normalizeForShell (Js.trim dir))
                          <> EmptyString).
      { rewrite honoured_chars. split.
        - intros (dir' & c & [= <-] & H). by exists c.
        - intros (c & H). by exists dir, c. }
      rewrite Hiff.
      by destruct (Js.stripTrailingSlashes
                     (ScriptRunner.normalizeForShell (Js.trim dir))).
  - split; [done |]. split; [done |].
    intros (dir' & c & [= <-] & Hin & _).
    assert (Js.trim dir <> EmptyString) as Hne'
      by (intros E; by rewrite E in Hin).
    apply trim_nonempty in Hne'. congruence.
Qed.

Lemma persistent_root_is_normalised_witness :
  ScriptRunner.persistentBaseOf Fixture.tmpfileOptions
  = Some "/home/u/.mux-tmp/tok" /\
  ~ occursIn "\" "/home/u/.mux-tmp/tok" /\
  (forall s, "/home/u/.mux-tmp/tok" <> s +:+ "/").
Proof.
  split; [reflexivity |].
  destruct (proj1 (persistent_root_is_normalised Fixture.tmpfileOptions)
              "/home/u/.mux-tmp/tok" eq_refl)
    as (dir & tail & _ & _ & _ & Hback & Hend).
  exact (conj Hback Hend).
Defined.

(** A workspace whose [build] is a directory: the run ends at the [stat]
    check. *)
Lemma script_is_checked_to_be_a_file_witness :
  let fx :=
    {| Fixture.links := [];
       Fixture.files := [("/ws/.mux/scripts/build", true)];
       Fixture.resolveThrows := false; Fixture.tempDir := "/tmp/tmp.Xa3";
       Fixture.engine := Normal (ScriptRunner.BashSuccess "done" 0) |} in
  let r := ScriptRunner.runWorkspaceScript (Fixture.host fx)
             "/ws" "build" [] ScriptRunner.noOptions tt in
  last (events r)
  = Some (ScriptRunner.EvStat "/ws/.mux/scripts/build"
            (Normal {| ScriptRunner.isDirectory := true |})) /\
  completion r = Normal (Err "Script is a directory: build").
Proof.
  cbv zeta.
  match goal with |- ?H /\ _ => assert (Hlast : H) by (vm_compute; reflexivity) end.
  split; [exact Hlast |].
  exact (proj2 (proj1 (script_is_checked_to_be_a_file _ _ _ _ _ _) _ _ Hlast)).
Defined.
